(** * scripts/optimize_images.py: a shallow embedding and its properties

    The script walks [img/], re-encodes every JPEG in place after
    shrinking it to a longest side of 900 pixels, leaves the hero image
    and every other entry alone, and prints before/after sizes.

    Modelling choices.
    - Python integers are [Z].
    - Pillow is not part of the repository: it is an interface (class
      [Pillow]) whose operations may raise.
    - [img/] is a finite map from entry names to entries; each name owns
      its content (no hard or symbolic links between entries), and an
      entry is addressed by its name: [os.path.join(IMG_DIR, name)] is
      the path of the entry [name].
    - Exceptions, the directory, standard output and the two running
      totals of [main] are threaded by a small state-and-error monad.
    - The percentages are floating point values formatted for display;
      a printed line keeps the two integer operands instead.
    - Standard output is taken to accept every line ([print] returns;
      in particular it can encode every file name), and [os.listdir]
      is taken to return its listing. *)

From Stdlib Require Import ZArith Ascii String List Bool Lia Strings.Byte.
From stdpp Require Import base option gmap strings list fin_maps.

Local Open Scope Z_scope.

(** ** Exceptions and results *)

Inductive exn : Type :=
| ZeroDivisionError
| FileNotFoundError
| ImageError (msg : string).   (* anything Pillow raises, with its text *)

Inductive result (A : Type) : Type :=
| Ok (a : A)
| Raise (e : exn).
Arguments Ok {A} a.
Arguments Raise {A} e.

Definition is_ok {A} (r : result A) : bool :=
  match r with Ok _ => true | Raise _ => false end.

Definition rbind {A B} (r : result A) (k : A -> result B) : result B :=
  match r with Ok a => k a | Raise e => Raise e end.

(** [int(a / b)] on Python integers: true division, then truncation
    towards zero.  The float quotient truncates to [Z.quot a b] whenever
    [|a| < 2^53], which covers every Pillow image size (below [2^31])
    multiplied by the thresholds 900 and 1200. *)
Definition int_truediv (a b : Z) : result Z :=
  if b =? 0 then Raise ZeroDivisionError else Ok (Z.quot a b).

(** ** The imaging library *)

Definition bytes : Type := list byte.

Inductive format : Type :=
| JPEG (quality : Z)   (* save(path, "JPEG", quality=q, optimize=True) *)
| PNG.                 (* save(path, "PNG", optimize=True) *)

(** What [img.save(path, ...)] does to the file at [path]. *)
Inductive saved : Type :=
| Written (b : bytes)                       (* the file now holds [b] *)
| SaveFailed (e : exn) (kept : option bytes).
    (* raised; [Some b]: the file was left holding [b], [None]: untouched *)

Class Pillow : Type := {
  image : Type;
  img_open : bytes -> result image;                 (* Image.open *)
  img_size : image -> Z * Z;                        (* img.size *)
  img_mode : image -> string;                       (* img.mode *)
  img_convert : image -> string -> result image;    (* img.convert(mode) *)
  img_resize : image -> Z * Z -> result image;      (* img.resize(size, LANCZOS) *)
  img_save : image -> format -> saved               (* img.save *)
}.

(** Pillow's contract for [resize]: the image it returns has the size
    that was asked for. *)
Definition resize_exact `{Pillow} : Prop :=
  forall i s i', img_resize i s = Ok i' -> img_size i' = s.

(** A file Pillow has written is never empty (a JPEG or PNG stream
    starts with its signature). *)
Definition saves_nonempty `{Pillow} : Prop :=
  forall i f b, img_save i f = Written b -> b <> [].


Definition resize_rejects_empty `{Pillow} : Prop :=
  forall i w h, w < 1 \/ h < 1 -> exists e, img_resize i (w, h) = Raise e.

(** ** Constants *)

Definition GALLERY_MAX : Z := 900.
Definition HERO_MAX_WIDTH : Z := 1200.
Definition JPEG_QUALITY : Z := 85.

(** ** resize_to_max *)

Section Resizer.
Context `{Pillow}.

Definition resize_to_max (img : image) (max_size : Z) : result image :=
  let '(w, h) := img_size img in
  if (w <=? max_size) && (h <=? max_size) then Ok img
  else if w >=? h then
    rbind (int_truediv (h * max_size) w) (fun new_h =>
    img_resize img (max_size, new_h))
  else
    rbind (int_truediv (w * max_size) h) (fun new_w =>
    img_resize img (new_w, max_size)).

End Resizer.

(** ** File names *)

Definition lower_ascii (c : ascii) : ascii :=
  let n := N_of_ascii c in
  if ((65 <=? n) && (n <=? 90))%N then ascii_of_N (n + 32) else c.

(** [name.lower()].  Names are byte strings; only ASCII letters fold.
    No character outside ASCII lower-cases to a letter of
    [hero-bread.png], [.jpg] or [.jpeg], so the classification below
    agrees with Python's on every name. *)
Fixpoint lower (s : string) : string :=
  match s with
  | EmptyString => EmptyString
  | String c rest => String (lower_ascii c) (lower rest)
  end.

(** [s.endswith(suffix)] *)
Definition endswith (s suffix : string) : bool :=
  let n := String.length s in
  let k := String.length suffix in
  (k <=? n)%nat && String.eqb (substring (n - k) k s) suffix.

Definition is_hero (low : string) : bool :=
  String.eqb low "hero-bread.png" || String.eqb low "hero-bread.jpg".

Definition is_jpeg (low : string) : bool :=
  endswith low ".jpeg" || endswith low ".jpg".

(** The dispatcher sends [name] to the JPEG transform. *)
Definition dispatched (name : string) : bool :=
  negb (is_hero (lower name)) && is_jpeg (lower name).

(** ** The world the script runs in *)

Inductive entry : Type :=
| File (content : bytes)
| Directory.

(** [(1 - after / before) * 100], kept as its operands, or the literal
    [0] of the guarded per-file expression. *)
Inductive percent : Type :=
| Flat
| Reduction (after before : Z).

Inductive line : Type :=
| Text (s : string)
| FileLine (name : string) (kb_before kb_after : Z) (pct : percent)
    (* "  {name}: {kb_before} KB -> {kb_after} KB (-{pct:.0f}%)" *)
| SkipLine (name : string) (e : exn)
    (* "  {name}: skip ({e})" *)
| TotalLine (kb_before kb_after : Z) (pct : percent).
    (* "Total: {kb_before} KB -> {kb_after} KB (-{pct:.0f}%)" *)

(** [fs] is the content of [IMG_DIR], or [None] when [IMG_DIR] is not a
    directory.  [total_before] and [total_after] are the two local
    accumulators of [main]. *)
Record state : Type := mkState {
  fs : option (gmap string entry);
  stdout : list line;
  total_before : Z;
  total_after : Z
}.

Definition start (d : option (gmap string entry)) : state :=
  mkState d [] 0 0.

Definition M (A : Type) : Type := state -> state * result A.

Definition ret {A} (a : A) : M A := fun st => (st, Ok a).

Definition raise {A} (e : exn) : M A := fun st => (st, Raise e).

Definition bind {A B} (m : M A) (k : A -> M B) : M B :=
  fun st =>
    match m st with
    | (st', Ok a) => k a st'
    | (st', Raise e) => (st', Raise e)
    end.

Definition lift {A} (r : result A) : M A := fun st => (st, r).

Notation "'do' x <- m ; k" := (bind m (fun x => k))
  (at level 10, x name, m at level 100, k at level 200).
Notation "'exec' m ; k" := (bind m (fun _ => k))
  (at level 10, m at level 100, k at level 200).

(** [try: m  except Exception as e: handler(e)] *)
Definition try_except (m : M unit) (handler : exn -> M unit) : M unit :=
  fun st =>
    match m st with
    | (st', Ok a) => (st', Ok a)
    | (st', Raise e) => handler e st'
    end.

Definition entry_at (name : string) (st : state) : option entry :=
  d ← fs st; d !! name.

Definition isdir (st : state) : bool :=
  match fs st with Some _ => true | None => false end.

Definition isfile (name : string) (st : state) : bool :=
  match entry_at name st with Some (File _) => true | _ => false end.

Definition getsize (name : string) : M Z :=
  fun st =>
    match entry_at name st with
    | Some (File b) => (st, Ok (Z.of_nat (List.length b)))
    | _ => (st, Raise FileNotFoundError)
    end.

Definition store (name : string) (b : bytes) (st : state) : state :=
  mkState (insert name (File b) <$> fs st)
          (stdout st) (total_before st) (total_after st).

Definition print (l : line) : M unit :=
  fun st =>
    (mkState (fs st) (stdout st ++ [l]) (total_before st) (total_after st),
     Ok tt).

Definition add_total_before (n : Z) : M unit :=
  fun st =>
    (mkState (fs st) (stdout st) (total_before st + n) (total_after st),
     Ok tt).

Definition add_total_after (n : Z) : M unit :=
  fun st =>
    (mkState (fs st) (stdout st) (total_before st) (total_after st + n),
     Ok tt).

Definition reset_totals : M unit :=
  fun st => (mkState (fs st) (stdout st) 0 0, Ok tt).

Fixpoint for_each (names : list string) (f : string -> M unit) : M unit :=
  match names with
  | [] => ret tt
  | name :: rest => exec f name ; for_each rest f
  end.

Definition newline : string := String "010" EmptyString.

Definition banner (IMG_DIR : string) : line :=
  Text ("Optimizing images in " +:+ IMG_DIR +:+ newline).

Section Script.
Context `{Pillow}.

(** [Image.open(path)] *)
Definition image_open (path : string) : M image :=
  fun st =>
    match entry_at path st with
    | Some (File b) => (st, img_open b)
    | _ => (st, Raise FileNotFoundError)
    end.

(** [img.save(path, ...)] *)
Definition image_save (img : image) (path : string) (f : format) : M unit :=
  fun st =>
    match img_save img f with
    | Written b => (store path b st, Ok tt)
    | SaveFailed e (Some b) => (store path b st, Raise e)
    | SaveFailed e None => (st, Raise e)
    end.

Definition optimize_jpeg (path : string) : M string :=
  do img <- image_open path ;
  do img <- lift (img_convert img "RGB") ;
  do img <- lift (resize_to_max img GALLERY_MAX) ;
  exec image_save img path (JPEG JPEG_QUALITY) ;
  ret path.

Definition optimize_hero (path : string) : M string :=
  do img <- image_open path ;
  do img <- lift (resize_to_max img HERO_MAX_WIDTH) ;
  do img <- lift (if String.eqb (img_mode img) "RGBA" then Ok img
                  else img_convert img "RGBA") ;
  exec image_save img path PNG ;
  ret path.

(** The body of the [try] block of one loop iteration; the two
    [continue] branches end it with nothing more done. *)
Definition try_body (name : string) : M unit :=
  do size_before <- getsize name ;
  exec add_total_before size_before ;
  let low := lower name in
  if is_hero low then ret tt
  else if is_jpeg low then
    exec optimize_jpeg name ;
    do size_after <- getsize name ;
    exec add_total_after size_after ;
    let pct := if size_before =? 0 then Flat
               else Reduction size_after size_before in
    print (FileLine name (size_before / 1024) (size_after / 1024) pct)
  else ret tt.

Definition iteration (name : string) : M unit :=
  fun st =>
    if isfile name st
    then try_except (try_body name) (fun e => print (SkipLine name e)) st
    else (st, Ok tt).

Definition summary : M unit :=
  fun st =>
    if total_after st =? 0 then (st, Ok tt)
    else if total_before st =? 0 then (st, Raise ZeroDivisionError)
    else print (TotalLine (total_before st / 1024) (total_after st / 1024)
                          (Reduction (total_after st) (total_before st))) st.

(** From the banner to the end of the [for] loop.  [listing] is what
    [os.listdir(IMG_DIR)] returns, in its order. *)
Definition per_file_loop (IMG_DIR : string) (listing : list string) : M unit :=
  exec print (banner IMG_DIR) ;
  exec reset_totals ;
  for_each listing iteration.

Definition main (IMG_DIR : string) (listing : list string) : M unit :=
  fun st =>
    if negb (isdir st)
    then print (Text ("No img/ directory found at " +:+ IMG_DIR)) st
    else (exec per_file_loop IMG_DIR listing ; summary) st.

End Script.

(** ** Vocabulary of the properties *)

(** The byte size of the regular file [name] in [d]. *)
Definition size_in (d : gmap string entry) (name : string) : Z :=
  match d !! name with
  | Some (File b) => Z.of_nat (List.length b)
  | _ => 0
  end.

(** The loop transforms [name] successfully: it is a regular file, the
    dispatcher sends it to [optimize_jpeg], and that call returns. *)
Definition transforms `{Pillow} (d : gmap string entry) (name : string) : bool :=
  isfile name (start (Some d)) && dispatched name
  && is_ok (snd (optimize_jpeg name (start (Some d)))).

Definition is_total_line (l : line) : bool :=
  match l with TotalLine _ _ _ => true | _ => false end.

(** The name a per-file line is about. *)
Definition line_name (l : line) : option string :=
  match l with
  | FileLine name _ _ _ => Some name
  | SkipLine name _ => Some name
  | _ => None
  end.

(** ** A per-file reading of the loop

    The loop body, read off as a function of the one entry it looks at.
    [iteration_step] below proves that the monadic [iteration] computes
    exactly this. *)

Section PerFile.
Context `{Pillow}.

(** What [optimize_jpeg] does with a file holding [b]. *)
Definition reencode (b : bytes) : saved :=
  match img_open b with
  | Raise e => SaveFailed e None
  | Ok img =>
      match img_convert img "RGB" with
      | Raise e => SaveFailed e None
      | Ok rgb =>
          match resize_to_max rgb GALLERY_MAX with
          | Raise e => SaveFailed e None
          | Ok small => img_save small (JPEG JPEG_QUALITY)
          end
      end
  end.

Definition step (name : string) (st : state) : state :=
  match entry_at name st with
  | Some (File b) =>
      let size_before := Z.of_nat (List.length b) in
      let counted := total_before st + size_before in
      if is_hero (lower name)
      then mkState (fs st) (stdout st) counted (total_after st)
      else if is_jpeg (lower name) then
        match reencode b with
        | Written b' =>
            let size_after := Z.of_nat (List.length b') in
            let pct := if size_before =? 0 then Flat
                       else Reduction size_after size_before in
            mkState (insert name (File b') <$> fs st)
                    (stdout st ++ [FileLine name (size_before / 1024)
                                            (size_after / 1024) pct])
                    counted (total_after st + size_after)
        | SaveFailed e kept =>
            mkState (match kept with
                     | Some b' => insert name (File b') <$> fs st
                     | None => fs st
                     end)
                    (stdout st ++ [SkipLine name e])
                    counted (total_after st)
        end
      else mkState (fs st) (stdout st) counted (total_after st)
  | _ => st
  end.

(** The bytes a successful transform of [name] leaves behind, counted;
    [0] for every entry that is not transformed. *)
Definition size_after_in (d : gmap string entry) (name : string) : Z :=
  match d !! name with
  | Some (File b) =>
      if dispatched name then
        match reencode b with
        | Written b' => Z.of_nat (List.length b')
        | SaveFailed _ _ => 0
        end
      else 0
  | _ => 0
  end.

(** The loop over a listing, as steps. *)
Definition steps (names : list string) (st : state) : state :=
  fold_left (fun s name => step name s) names st.

End PerFile.

(** The sum of [f] over the listing. *)
Definition total (f : string -> Z) (names : list string) : Z :=
  foldr (fun name acc => f name + acc) 0 names.

(** ** A small imaging library to run the script on

    An image file starts with its width and height in hundreds of
    pixels, one byte each; saving writes just those two bytes.  As in
    Pillow, a resize to an empty size raises. *)
Module Sample.

Definition byte_val (b : byte) : Z := Z.of_N (Byte.to_N b).

Definition val_byte (z : Z) : byte :=
  match Byte.of_N (Z.to_N z) with Some b => b | None => x00 end.

Definition sample_open (b : bytes) : result (Z * Z) :=
  match b with
  | w :: h :: _ => Ok (100 * byte_val w, 100 * byte_val h)
  | _ => Raise (ImageError "cannot identify image file")
  end.

Definition sample_resize (i : Z * Z) (s : Z * Z) : result (Z * Z) :=
  if (1 <=? fst s) && (1 <=? snd s) then Ok s
  else Raise (ImageError "height and width must be > 0").

Definition sample_save (i : Z * Z) (f : format) : saved :=
  Written [val_byte (fst i / 100); val_byte (snd i / 100)].

Definition codec : Pillow := {|
  image := Z * Z;
  img_open := sample_open;
  img_size := fun i => i;
  img_mode := fun _ => "RGB"%string;
  img_convert := fun i _ => Ok i;
  img_resize := sample_resize;
  img_save := sample_save
|}.

(** 2000 x 1000, five bytes. *)
Definition photo1 : bytes := [x14; x0a; xff; xd8; xff].

(** 1600 x 900, eight bytes. *)
Definition hero : bytes := [x10; x09; x89; x50; x4e; x47; x0d; x0a].

Definition broken : bytes := [x00].

Definition notes : bytes := [x68; x69; x0a].

Definition img_dir : gmap string entry :=
  <["photo1.JPG"%string := File photo1]>
  (<["hero-bread.png"%string := File hero]>
  (<["notes.txt"%string := File notes]>
  (<["broken.jpg"%string := File broken]>
  (<["raw"%string := Directory]> ∅)))).

Definition listing : list string :=
  ["photo1.JPG"; "raw"; "hero-bread.png"; "broken.jpg"; "notes.txt"]%string.

(** The scenario of two entries: one photo, the hero image. *)
Definition two_dir : gmap string entry :=
  <["photo1.JPG"%string := File photo1]>
  (<["hero-bread.png"%string := File hero]> ∅).

Definition two_listing : list string :=
  ["photo1.JPG"; "hero-bread.png"]%string.

End Sample.

(** ** More of Pillow's contract, and a second small library *)

(** Pillow's contract for [convert]: the image it returns is in the mode
    that was asked for and has the size of the original. *)
Definition convert_exact `{Pillow} : Prop :=
  forall i m i',
    img_convert i m = Ok i' -> img_mode i' = m /\ img_size i' = img_size i.

(** A library that keeps track of the mode.  A file of two bytes or
    more is an RGB image with the size its first two bytes give, in
    hundreds of pixels; a shorter file is not an image.  Saving writes
    the two size bytes. *)
Module Modes.

Definition modes_open (b : bytes) : result (Z * Z * string) :=
  match b with
  | w :: h :: _ =>
      Ok (100 * Sample.byte_val w, 100 * Sample.byte_val h, "RGB"%string)
  | _ => Raise (ImageError "cannot identify image file")
  end.

Definition modes_resize (i : Z * Z * string) (s : Z * Z)
  : result (Z * Z * string) :=
  if (1 <=? fst s) && (1 <=? snd s) then Ok (s, snd i)
  else Raise (ImageError "height and width must be > 0").

Definition modes_save (i : Z * Z * string) (f : format) : saved :=
  Written [Sample.val_byte (fst (fst i) / 100);
           Sample.val_byte (snd (fst i) / 100)].

Definition codec : Pillow := {|
  image := Z * Z * string;
  img_open := modes_open;
  img_size := fst;
  img_mode := snd;
  img_convert := fun i m => Ok (fst i, m);
  img_resize := modes_resize;
  img_save := modes_save
|}.

(** 1600 x 900, eight bytes. *)
Definition banner_png : bytes := [x10; x09; x89; x50; x4e; x47; x0d; x0a].

Definition hero_dir : gmap string entry :=
  <["hero-bread.png"%string := File banner_png]> ∅.

End Modes.

(** The line the loop prints for [name], read off the directory the run
    starts from: a per-file line for a transformed file, a skip line
    for one whose transform raised, nothing for any other entry. *)
Definition report `{Pillow} (d : gmap string entry) (name : string)
  : option line :=
  match d !! name with
  | Some (File b) =>
      if dispatched name then
        match reencode b with
        | Written b' =>
            let size_before := Z.of_nat (List.length b) in
            let size_after := Z.of_nat (List.length b') in
            Some (FileLine name (size_before / 1024) (size_after / 1024)
                    (if size_before =? 0 then Flat
                     else Reduction size_after size_before))
        | SaveFailed e _ => Some (SkipLine name e)
        end
      else None
  | _ => None
  end.

(** Pillow's contract for reading back what it wrote: an image opened
    from saved bytes has the size of the image that was saved. *)
Definition reopen_exact `{Pillow} : Prop :=
  forall i f b i',
    img_save i f = Written b -> img_open b = Ok i' -> img_size i' = img_size i.

(** The library [P] with its PNG encoder replaced by [encoder]. *)
Definition with_png_encoder (P : Pillow) (encoder : @image P -> saved)
  : Pillow := {|
  image := @image P;
  img_open := @img_open P;
  img_size := @img_size P;
  img_mode := @img_mode P;
  img_convert := @img_convert P;
  img_resize := @img_resize P;
  img_save := fun i f =>
    match f with
    | PNG => encoder i
    | JPEG _ => @img_save P i f
    end
|}.

(** A library of thumbnails: an image is its width and height in
    pixels, one byte each, with its mode; a file holds just the two
    size bytes and opens as RGB. *)
Module Thumbs.

Definition thumbs_open (b : bytes) : result (byte * byte * string) :=
  match b with
  | [w; h] => Ok (w, h, "RGB"%string)
  | _ => Raise (ImageError "cannot identify image file")
  end.

Definition thumbs_size (i : byte * byte * string) : Z * Z :=
  (Sample.byte_val (fst (fst i)), Sample.byte_val (snd (fst i))).

Definition thumbs_resize (i : byte * byte * string) (s : Z * Z)
  : result (byte * byte * string) :=
  if (1 <=? fst s) && (fst s <=? 255) && (1 <=? snd s) && (snd s <=? 255)
  then Ok (Sample.val_byte (fst s), Sample.val_byte (snd s), snd i)
  else Raise (ImageError "height and width must be > 0").

Definition codec : Pillow := {|
  image := byte * byte * string;
  img_open := thumbs_open;
  img_size := thumbs_size;
  img_mode := snd;
  img_convert := fun i m => Ok (fst i, m);
  img_resize := thumbs_resize;
  img_save := fun i _ => Written [fst (fst i); snd (fst i)]
|}.

(** 200 x 100. *)
Definition thumb : bytes := [xc8; x64].

Definition thumb_dir : gmap string entry :=
  <["thumb.jpg"%string := File thumb]> ∅.

End Thumbs.

(** * Properties *)

(** ** Integer division as the resizer uses it *)

Lemma int_truediv_pos (a b : Z) :
  0 < b -> int_truediv a b = Ok (Z.quot a b).
Proof.
  intros Hb. unfold int_truediv.
  destruct (Z.eqb_spec b 0) as [E | _]; [lia | reflexivity].
Qed.

Lemma quot_le_bound (a b q : Z) :
  0 < b -> 0 <= q -> a <= b * q -> Z.quot a b <= q.
Proof.
  intros Hb Hq Ha.
  destruct (Z_le_gt_dec 0 a) as [Hpos | Hneg].
  - rewrite Z.quot_div_nonneg by lia.
    apply Z.div_le_upper_bound; lia.
  - assert (0 <= Z.quot (- a) b) by (apply Z.quot_pos; lia).
    rewrite Z.quot_opp_l in * by lia. lia.
Qed.


Section ResizerFacts.
Context `{Pillow}.

(** The landscape branch: width at least height, width over the limit. *)
Lemma resize_to_max_wide (img : image) (m w h : Z) :
  img_size img = (w, h) -> 0 <= m -> h <= w -> m < w ->
  resize_to_max img m = img_resize img (m, Z.quot (h * m) w).
Proof.
  intros Hs Hm Hwh Hw. unfold resize_to_max. rewrite Hs.
  destruct (Z.leb_spec w m) as [? | _]; [lia |]. cbn [andb].
  destruct (Z.geb_spec w h) as [_ | ?]; [| lia].
  rewrite int_truediv_pos by lia. reflexivity.
Qed.

(** The portrait branch: height over width, height over the limit. *)
Lemma resize_to_max_tall (img : image) (m w h : Z) :
  img_size img = (w, h) -> 0 <= m -> w < h -> m < h ->
  resize_to_max img m = img_resize img (Z.quot (w * m) h, m).
Proof.
  intros Hs Hm Hwh Hh. unfold resize_to_max. rewrite Hs.
  replace ((w <=? m) && (h <=? m)) with false
    by (symmetry; apply andb_false_iff; right; apply Z.leb_gt; lia).
  destruct (Z.geb_spec w h) as [? | _]; [lia |].
  rewrite int_truediv_pos by lia. reflexivity.
Qed.

Lemma resize_to_max_keep (img : image) (m w h : Z) :
  img_size img = (w, h) -> w <= m -> h <= m ->
  resize_to_max img m = Ok img.
Proof.
  intros Hs Hw Hh. unfold resize_to_max. rewrite Hs.
  destruct (Z.leb_spec w m); [| lia].
  destruct (Z.leb_spec h m); [| lia]. reflexivity.
Qed.

End ResizerFacts.

(** C3. When both the width and the height are at most the threshold,
    the resizer hands back the very image it was given, so the
    dimensions are unchanged and nothing is scaled up. *)
Theorem resize_to_max_no_upscale `{Pillow} (img : image) (max_size w h : Z) :
  img_size img = (w, h) -> w <= max_size -> h <= max_size ->
  resize_to_max img max_size = Ok img.
Proof. apply resize_to_max_keep. Qed.

Lemma resize_to_max_no_upscale_witness :
  @resize_to_max Sample.codec (800, 600) GALLERY_MAX = Ok (800, 600).
Proof.
  apply (@resize_to_max_no_upscale Sample.codec (800, 600) GALLERY_MAX 800 600).
  - reflexivity.
  - unfold GALLERY_MAX. lia.
  - unfold GALLERY_MAX. lia.
Defined.


(** C4. Resizing is idempotent on dimensions: whatever image one
    application returns, a second application with the same threshold
    returns that image as it is. *)
Theorem resize_to_max_idempotent `{Pillow} (img out : image) (max_size : Z) :
  resize_exact -> 0 <= max_size ->
  resize_to_max img max_size = Ok out ->
  resize_to_max out max_size = Ok out.
Proof.
  intros Hexact Hm Hout.
  destruct (img_size img) as [w h] eqn:Hs.
  destruct (Z_le_gt_dec w max_size) as [Hw | Hw];
    [destruct (Z_le_gt_dec h max_size) as [Hh | Hh] |].
  - rewrite (resize_to_max_keep img max_size w h) in Hout by assumption.
    injection Hout as <-. eapply resize_to_max_keep; eassumption.
  - destruct (Z_le_gt_dec h w) as [Hwh | Hwh]; [lia |].
    rewrite (resize_to_max_tall img max_size w h) in Hout by (assumption || lia).
    apply Hexact in Hout.
    eapply resize_to_max_keep; [exact Hout | | lia].
    apply quot_le_bound; nia.
  - destruct (Z_le_gt_dec h w) as [Hwh | Hwh].
    + rewrite (resize_to_max_wide img max_size w h) in Hout by (assumption || lia).
      apply Hexact in Hout.
      eapply resize_to_max_keep; [exact Hout | lia |].
      apply quot_le_bound; nia.
    + rewrite (resize_to_max_tall img max_size w h) in Hout by (assumption || lia).
      apply Hexact in Hout.
      eapply resize_to_max_keep; [exact Hout | | lia].
      apply quot_le_bound; nia.
Qed.

Lemma sample_resize_exact : @resize_exact Sample.codec.
Proof.
  intros i s i'. cbn. unfold Sample.sample_resize.
  destruct ((1 <=? fst s) && (1 <=? snd s)); [| discriminate].
  intros E. injection E as <-. reflexivity.
Qed.

Lemma resize_to_max_idempotent_witness :
  @resize_to_max Sample.codec (900, 450) 900 = Ok (900, 450).
Proof.
  apply (@resize_to_max_idempotent Sample.codec (2000, 1000) (900, 450) 900).
  - exact sample_resize_exact.
  - lia.
  - reflexivity.
Defined.

(** The side the resizer computes.  With the longer side over the
    threshold it is the floor of shorter * threshold / longer; when the
    longer side exceeds shorter * threshold it is 0, so the size the
    resizer asks for is not always one Pillow accepts. *)
Lemma resize_to_max_requests_floor `{Pillow}
    (img : image) (max_size w h : Z) :
  img_size img = (w, h) -> 0 <= w -> 0 <= h -> 0 <= max_size ->
  max_size < Z.max w h ->
  resize_to_max img max_size
    = img_resize img (if h <=? w then (max_size, h * max_size / w)
                      else (w * max_size / h, max_size))
  /\ (Z.min w h * max_size < Z.max w h ->
      resize_to_max img max_size
        = img_resize img (if h <=? w then (max_size, 0) else (0, max_size)))
  /\ (resize_exact -> forall out,
        resize_to_max img max_size = Ok out ->
        Z.min (fst (img_size out)) (snd (img_size out))
          = Z.min w h * max_size / Z.max w h).
Proof.
  intros Hs Hw Hh Hm Hover.
  destruct (Z.leb_spec h w) as [Hwh | Hwh].
  - rewrite Z.max_l in * by lia. rewrite Z.min_r by lia.
    assert (Hcall := resize_to_max_wide img max_size w h Hs Hm Hwh Hover).
    rewrite Z.quot_div_nonneg in Hcall by nia.
    split; [exact Hcall |]. split.
    + intros Hzero. rewrite Hcall. rewrite Z.div_small by nia. reflexivity.
    + intros Hexact out Hout. rewrite Hcall in Hout. apply Hexact in Hout.
      rewrite Hout. cbn [fst snd]. apply Z.min_r.
      apply Z.div_le_upper_bound; nia.
  - rewrite Z.max_r in * by lia. rewrite Z.min_l by lia.
    assert (Hcall := resize_to_max_tall img max_size w h Hs Hm Hwh Hover).
    rewrite Z.quot_div_nonneg in Hcall by nia.
    split; [exact Hcall |]. split.
    + intros Hzero. rewrite Hcall. rewrite Z.div_small by nia. reflexivity.
    + intros Hexact out Hout. rewrite Hcall in Hout. apply Hexact in Hout.
      rewrite Hout. cbn [fst snd]. apply Z.min_l.
      apply Z.div_le_upper_bound; nia.
Qed.


Lemma sample_resize_rejects_empty : @resize_rejects_empty Sample.codec.
Proof.
  intros i w h Hsmall. cbn. unfold Sample.sample_resize. cbn [fst snd].
  destruct (Z.leb_spec 1 w); destruct (Z.leb_spec 1 h);
    try (eexists; reflexivity).
  lia.
Qed.




(** C9, as the code behaves.  With the longer side over the threshold,
    the side the resizer computes and asks Pillow for is the floor of
    shorter * threshold / longer, and an image that the resizer returns
    has that shorter side, which is then at least one pixel.  When the
    longer side exceeds shorter * threshold the computed side is 0 and
    the resizer returns nothing: Pillow's [resize] rejects the size and
    its exception leaves the resizer. *)
Theorem resize_to_max_shorter_side_floor_or_raises `{Pillow}
    (img : image) (max_size w h : Z) :
  resize_exact -> resize_rejects_empty ->
  img_size img = (w, h) -> 0 <= w -> 0 <= h -> 0 <= max_size ->
  max_size < Z.max w h ->
  resize_to_max img max_size
    = img_resize img (if h <=? w then (max_size, h * max_size / w)
                      else (w * max_size / h, max_size))
  /\ (forall out,
        resize_to_max img max_size = Ok out ->
        Z.min (fst (img_size out)) (snd (img_size out))
          = Z.min w h * max_size / Z.max w h
        /\ 1 <= Z.min w h * max_size / Z.max w h)
  /\ (Z.min w h * max_size < Z.max w h ->
      Z.min w h * max_size / Z.max w h = 0
      /\ exists e, resize_to_max img max_size = Raise e).
Proof.
  intros Hexact Hrejects Hs Hw Hh Hm Hover.
  destruct (resize_to_max_requests_floor img max_size w h Hs Hw Hh Hm Hover)
    as (Hcall & Hzero & Hside).
  split; [exact Hcall |]. split.
  - intros out Hout. split; [apply (Hside Hexact); exact Hout |].
    destruct (Z_lt_le_dec (Z.min w h * max_size / Z.max w h) 1)
      as [Hsmall | Hfine]; [| exact Hfine].
    exfalso. rewrite Hcall in Hout.
    destruct (Z.leb_spec h w) as [Hwh | Hwh].
    + rewrite Z.max_l, Z.min_r in Hsmall by lia.
      destruct (Hrejects img max_size (h * max_size / w) (or_intror Hsmall))
        as (e & He).
      congruence.
    + rewrite Z.max_r, Z.min_l in Hsmall by lia.
      destruct (Hrejects img (w * max_size / h) max_size (or_introl Hsmall))
        as (e & He).
      congruence.
  - intros Hthin. split.
    + apply Z.div_small. split; [| exact Hthin].
      apply Z.mul_nonneg_nonneg; [apply Z.min_glb; assumption | exact Hm].
    + rewrite (Hzero Hthin).
      destruct (Z.leb_spec h w) as [Hwh | Hwh].
      * apply Hrejects. right. lia.
      * apply Hrejects. left. lia.
Qed.

Lemma resize_to_max_shorter_side_floor_or_raises_witness :
  @resize_to_max Sample.codec (2000, 1) 900
    = @img_resize Sample.codec (2000, 1)
        (if 1 <=? 2000 then (900, 1 * 900 / 2000) else (2000 * 900 / 1, 900))
  /\ (forall out,
        @resize_to_max Sample.codec (2000, 1) 900 = Ok out ->
        Z.min (fst (@img_size Sample.codec out)) (snd (@img_size Sample.codec out))
          = Z.min 2000 1 * 900 / Z.max 2000 1
        /\ 1 <= Z.min 2000 1 * 900 / Z.max 2000 1)
  /\ (Z.min 2000 1 * 900 < Z.max 2000 1 ->
      Z.min 2000 1 * 900 / Z.max 2000 1 = 0
      /\ exists e, @resize_to_max Sample.codec (2000, 1) 900 = Raise e).
Proof.
  apply (@resize_to_max_shorter_side_floor_or_raises Sample.codec
           (2000, 1) 900 2000 1).
  - exact sample_resize_exact.
  - exact sample_resize_rejects_empty.
  - reflexivity.
  - lia.
  - lia.
  - lia.
  - lia.
Defined.

(** C9 as the specification states it fails on a 3000 x 2 image with
    the gallery threshold: the longer side exceeds shorter * threshold
    (3000 > 1800), yet no dimension 0 is returned; the resizer raises
    what Pillow's [resize] raises on the size (900, 0). *)
Lemma resize_to_max_returns_no_zero_side :
  Z.min 3000 2 * 900 < Z.max 3000 2
  /\ @resize_to_max Sample.codec (3000, 2) 900
     = Raise (ImageError "height and width must be > 0")
  /\ forall out, @resize_to_max Sample.codec (3000, 2) 900 <> Ok out.
Proof.
  split; [vm_compute; reflexivity |]. split; [reflexivity |].
  intros out. vm_compute. discriminate.
Qed.

(** ** The loop, one entry at a time *)

Lemma entry_at_store_ne (name k : string) (b : bytes) (st : state) :
  name <> k -> entry_at k (store name b st) = entry_at k st.
Proof.
  intros Hne. unfold entry_at, store. cbn.
  destruct (fs st) as [d |]; cbn; [| reflexivity].
  apply lookup_insert_ne. exact Hne.
Qed.

Lemma entry_at_store_eq (name : string) (b : bytes) (st : state) :
  isdir st = true -> entry_at name (store name b st) = Some (File b).
Proof.
  unfold isdir, entry_at, store. cbn.
  destruct (fs st) as [d |]; cbn; [| discriminate].
  intros _. apply lookup_insert_eq.
Qed.

Lemma entry_at_isdir (name : string) (st : state) (e : entry) :
  entry_at name st = Some e -> isdir st = true.
Proof.
  unfold entry_at, isdir. destruct (fs st); [reflexivity | discriminate].
Qed.

Section LoopFacts.
Context `{Pillow}.

(** [optimize_jpeg] on a regular file is [reencode] on its bytes. *)
Lemma optimize_jpeg_run (path : string) (b : bytes) (st : state) :
  entry_at path st = Some (File b) ->
  optimize_jpeg path st =
    match reencode b with
    | Written b' => (store path b' st, Ok path)
    | SaveFailed e (Some b') => (store path b' st, Raise e)
    | SaveFailed e None => (st, Raise e)
    end.
Proof.
  intros Hb. unfold optimize_jpeg, reencode, bind, image_open, lift.
  rewrite Hb.
  destruct (img_open b) as [img | e]; [| reflexivity].
  destruct (img_convert img "RGB") as [rgb | e]; [| reflexivity].
  destruct (resize_to_max rgb GALLERY_MAX) as [small | e]; [| reflexivity].
  unfold image_save.
  destruct (img_save small (JPEG JPEG_QUALITY)) as [b' | e [b' |]];
    reflexivity.
Qed.

(** The monadic loop body never raises and computes [step]. *)
Lemma iteration_step (name : string) (st : state) :
  iteration name st = (step name st, Ok tt).
Proof.
  unfold iteration, isfile, step.
  destruct (entry_at name st) as [[b |] |] eqn:Hb; try reflexivity.
  unfold try_except, try_body, bind, getsize, add_total_before.
  rewrite Hb. cbn [total_before total_after fs stdout].
  destruct (is_hero (lower name)); [reflexivity |].
  destruct (is_jpeg (lower name)); [| reflexivity].
  set (st1 := mkState _ _ _ _).
  assert (Hb1 : entry_at name st1 = Some (File b)) by exact Hb.
  rewrite (optimize_jpeg_run name b st1 Hb1).
  destruct (reencode b) as [b' | e [b' |]]; try reflexivity.
  rewrite entry_at_store_eq by (eapply entry_at_isdir; exact Hb1).
  reflexivity.
Qed.

Lemma for_each_steps (names : list string) (st : state) :
  for_each names iteration st
    = (steps names st, Ok tt).
Proof.
  revert st. induction names as [| name rest IH]; intros st.
  - reflexivity.
  - unfold steps. cbn [for_each fold_left]. unfold bind at 1.
    rewrite iteration_step. apply IH.
Qed.

End LoopFacts.

(** ** What one step touches *)

Section StepFacts.
Context `{Pillow}.

(** A step over an entry that is not sent to the JPEG transform leaves
    the directory as it is and prints nothing. *)
Lemma step_skip (name : string) (st : state) :
  dispatched name = false ->
  fs (step name st) = fs st /\ stdout (step name st) = stdout st.
Proof.
  unfold dispatched, step. intros Hskip.
  destruct (entry_at name st) as [[b |] |]; try (split; reflexivity).
  destruct (is_hero (lower name)); [split; reflexivity |].
  cbn in Hskip. rewrite Hskip. split; reflexivity.
Qed.

(** A step over [name] leaves every other entry as it is. *)
Lemma step_other (name k : string) (st : state) :
  name <> k -> entry_at k (step name st) = entry_at k st.
Proof.
  intros Hne. unfold step.
  destruct (entry_at name st) as [[b |] |]; try reflexivity.
  destruct (is_hero (lower name)); [reflexivity |].
  destruct (is_jpeg (lower name)); [| reflexivity].
  destruct (reencode b) as [b' | e [b' |]]; try reflexivity.
  - apply (entry_at_store_ne name k b' st Hne).
  - apply (entry_at_store_ne name k b' st Hne).
Qed.

(** Every line a step prints is a per-file line about the entry it
    looked at, and that entry was sent to the JPEG transform. *)
Lemma step_stdout (name : string) (st : state) :
  exists printed,
    stdout (step name st) = stdout st ++ printed
    /\ forall l, l ∈ printed ->
         line_name l = Some name /\ dispatched name = true.
Proof.
  unfold step, dispatched.
  destruct (entry_at name st) as [[b |] |];
    try (exists []; split; [symmetry; apply app_nil_r | intros l Hl; inversion Hl]).
  destruct (is_hero (lower name));
    [exists []; split; [symmetry; apply app_nil_r | intros l Hl; inversion Hl] |].
  destruct (is_jpeg (lower name));
    [| exists []; split; [symmetry; apply app_nil_r | intros l Hl; inversion Hl]].
  destruct (reencode b) as [b' | e kept].
  - eexists [_]. split; [reflexivity |].
    intros l Hl. apply list_elem_of_singleton in Hl. subst l. split; reflexivity.
  - eexists [_]. split; [reflexivity |].
    intros l Hl. apply list_elem_of_singleton in Hl. subst l. split; reflexivity.
Qed.

Lemma step_isdir (name : string) (st : state) :
  isdir (step name st) = isdir st.
Proof.
  unfold step.
  destruct (entry_at name st) as [[b |] |]; try reflexivity.
  destruct (is_hero (lower name)); [reflexivity |].
  destruct (is_jpeg (lower name)); [| reflexivity].
  destruct (reencode b) as [b' | e [b' |]]; try reflexivity;
    unfold isdir; cbn; destruct (fs st); reflexivity.
Qed.

(** The totals after a step, from the entry it looked at. *)
Lemma step_totals (name : string) (st : state) (d : gmap string entry) :
  fs st = Some d ->
  total_before (step name st) = total_before st + size_in d name
  /\ total_after (step name st) = total_after st + size_after_in d name.
Proof.
  intros Hd. unfold step, entry_at, size_in, size_after_in, dispatched.
  rewrite Hd. cbn.
  destruct (d !! name) as [[b |] |]; try (split; lia).
  destruct (is_hero (lower name)); cbn; [split; lia |].
  destruct (is_jpeg (lower name)); cbn; [| split; lia].
  destruct (reencode b) as [b' | e kept]; cbn; split; lia.
Qed.

End StepFacts.

(** ** The whole loop *)

Section WholeLoop.
Context `{Pillow}.

Lemma loop_frame (names : list string) (st : state) (k : string) :
  dispatched k = false ->
  entry_at k (steps names st) = entry_at k st.
Proof.
  intros Hk. revert st. induction names as [| name rest IH]; intros st.
  - reflexivity.
  - unfold steps; cbn [fold_left]; fold (steps rest (step name st)). rewrite IH.
    destruct (String.eqb_spec name k) as [-> | Hne].
    + unfold entry_at. destruct (step_skip k st Hk) as [-> _]. reflexivity.
    + apply step_other. exact Hne.
Qed.

Lemma loop_isdir (names : list string) (st : state) :
  isdir (steps names st) = isdir st.
Proof.
  revert st. induction names as [| name rest IH]; intros st;
    [reflexivity |].
  unfold steps; cbn [fold_left]; fold (steps rest (step name st)). rewrite IH. apply step_isdir.
Qed.

Lemma loop_stdout (names : list string) (st : state) :
  exists printed,
    stdout (steps names st) = stdout st ++ printed
    /\ forall l, l ∈ printed ->
         exists name, line_name l = Some name /\ dispatched name = true.
Proof.
  revert st. induction names as [| name rest IH]; intros st.
  - exists []. split; [symmetry; apply app_nil_r | intros l Hl; inversion Hl].
  - unfold steps; cbn [fold_left]; fold (steps rest (step name st)).
    destruct (IH (step name st)) as (later & Hlater & Hl).
    destruct (step_stdout name st) as (now & Hnow & Hn).
    exists (now ++ later). split.
    + rewrite Hlater, Hnow. symmetry. apply app_assoc.
    + intros l Hin. apply elem_of_app in Hin as [Hin | Hin].
      * exists name. apply Hn. exact Hin.
      * apply Hl. exact Hin.
Qed.

(** With no name listed twice, each step still sees its entry as it
    was when the run started, so the totals are sums over the
    directory the run started from. *)
Lemma loop_totals (names : list string) (st : state)
    (d now : gmap string entry) :
  NoDup names -> fs st = Some now ->
  (forall name, name ∈ names -> now !! name = d !! name) ->
  total_before (steps names st) = total_before st + total (size_in d) names
  /\ total_after (steps names st)
       = total_after st + total (size_after_in d) names.
Proof.
  intros Hnd. revert st now.
  induction Hnd as [| name rest Hfresh Hnd IH]; intros st now Hnow Hsame.
  - cbn. split; lia.
  - unfold steps; cbn [fold_left total foldr]; fold (steps rest (step name st)).
    destruct (step_totals name st now Hnow) as [Hb Ha].
    assert (Hhead : now !! name = d !! name)
      by (apply Hsame; apply list_elem_of_here).
    assert (Hdir : isdir (step name st) = true)
      by (rewrite step_isdir; unfold isdir; rewrite Hnow; reflexivity).
    unfold isdir in Hdir.
    destruct (fs (step name st)) as [next |] eqn:Hnext; [| discriminate].
    destruct (IH (step name st) next Hnext) as [IHb IHa].
    + intros k Hk.
      assert (Hne : name <> k) by (intros ->; contradiction).
      pose proof (step_other name k st Hne) as Hk'.
      unfold entry_at in Hk'. rewrite Hnext, Hnow in Hk'. cbn in Hk'.
      rewrite Hk'. apply Hsame. apply list_elem_of_further. exact Hk.
    + fold (total (size_in d) rest) in *.
      fold (total (size_after_in d) rest) in *.
      unfold size_in, size_after_in in Hb, Ha. rewrite Hhead in Hb, Ha.
      fold (size_in d name) in Hb. fold (size_after_in d name) in Ha.
      split; lia.
Qed.

End WholeLoop.

(** ** Sums over a listing *)

Lemma total_cons (f : string -> Z) (name : string) (rest : list string) :
  total f (name :: rest) = f name + total f rest.
Proof. reflexivity. Qed.

Lemma total_nonneg (f : string -> Z) (names : list string) :
  (forall name, 0 <= f name) -> 0 <= total f names.
Proof.
  intros Hf. induction names as [| name rest IH].
  - cbn. lia.
  - rewrite total_cons. specialize (Hf name). lia.
Qed.

Lemma total_zero (f : string -> Z) (names : list string) :
  (forall name, name ∈ names -> f name = 0) -> total f names = 0.
Proof.
  induction names as [| name rest IH]; intros Hf; [reflexivity |].
  rewrite total_cons, (Hf name) by apply list_elem_of_here.
  rewrite IH; [reflexivity |].
  intros k Hk. apply Hf. apply list_elem_of_further. exact Hk.
Qed.

Lemma total_pos (f : string -> Z) (names : list string) (name : string) :
  (forall k, 0 <= f k) -> name ∈ names -> 0 < f name -> 0 < total f names.
Proof.
  intros Hf Hin Hpos. induction Hin as [name rest | name other rest Hin IH].
  - rewrite total_cons. pose proof (total_nonneg f rest Hf). lia.
  - rewrite total_cons. specialize (IH Hpos). specialize (Hf other). lia.
Qed.

Lemma total_nonzero (f : string -> Z) (names : list string) :
  total f names <> 0 -> exists name, name ∈ names /\ f name <> 0.
Proof.
  induction names as [| name rest IH]; intros Hne.
  - cbn in Hne. lia.
  - rewrite total_cons in Hne.
    destruct (Z.eq_dec (f name) 0) as [Hz | Hnz].
    + destruct IH as (k & Hk & Hfk); [lia |].
      exists k. split; [apply list_elem_of_further; exact Hk | exact Hfk].
    + exists name. split; [apply list_elem_of_here | exact Hnz].
Qed.

(** ** Transformed files and their sizes *)

Section Transformed.
Context `{Pillow}.

Lemma transforms_reencode (d : gmap string entry) (name : string) :
  transforms d name = true <->
  exists b b', d !! name = Some (File b) /\ dispatched name = true
               /\ reencode b = Written b'.
Proof.
  unfold transforms, isfile.
  destruct (d !! name) as [[b |] |] eqn:Hb.
  - assert (Hat : entry_at name (start (Some d)) = Some (File b)) by exact Hb.
    rewrite Hat, (optimize_jpeg_run name b _ Hat). cbn [andb].
    split.
    + intros Hyes. exists b.
      destruct (dispatched name); [| discriminate].
      destruct (reencode b) as [b' | e [b' |]]; try discriminate.
      exists b'. auto.
    + intros (b0 & b' & Hb0 & -> & Hre). injection Hb0 as <-.
      rewrite Hre. reflexivity.
  - assert (Hat : entry_at name (start (Some d)) = Some Directory) by exact Hb.
    rewrite Hat. cbn [andb].
    split; [discriminate | intros (? & ? & ? & _); discriminate].
  - assert (Hat : entry_at name (start (Some d)) = None) by exact Hb.
    rewrite Hat. cbn [andb].
    split; [discriminate | intros (? & ? & ? & _); discriminate].
Qed.

Lemma size_in_nonneg (d : gmap string entry) (name : string) :
  0 <= size_in d name.
Proof. unfold size_in. destruct (d !! name) as [[b |] |]; lia. Qed.

Lemma size_after_in_nonneg (d : gmap string entry) (name : string) :
  0 <= size_after_in d name.
Proof.
  unfold size_after_in. destruct (d !! name) as [[b |] |]; try lia.
  destruct (dispatched name); [| lia]. destruct (reencode b); lia.
Qed.

Lemma size_after_in_untransformed (d : gmap string entry) (name : string) :
  transforms d name = false -> size_after_in d name = 0.
Proof.
  intros Hno. unfold size_after_in.
  destruct (d !! name) as [[b |] |] eqn:Hb; try reflexivity.
  destruct (dispatched name) eqn:Hdisp; [| reflexivity].
  destruct (reencode b) as [b' | e kept] eqn:Hre; [| reflexivity].
  assert (transforms d name = true)
    by (apply transforms_reencode; exists b, b'; auto).
  congruence.
Qed.

Lemma reencode_written_nonempty (b b' : bytes) :
  saves_nonempty -> reencode b = Written b' -> b' <> [].
Proof.
  intros Hsave. unfold reencode.
  destruct (img_open b) as [img | e]; [| discriminate].
  destruct (img_convert img "RGB") as [rgb | e]; [| discriminate].
  destruct (resize_to_max rgb GALLERY_MAX) as [small | e]; [| discriminate].
  apply Hsave.
Qed.

Lemma size_after_in_transformed (d : gmap string entry) (name : string) :
  saves_nonempty -> transforms d name = true -> 0 < size_after_in d name.
Proof.
  intros Hsave Hyes. apply transforms_reencode in Hyes as (b & b' & Hb & Hd & Hre).
  unfold size_after_in. rewrite Hb, Hd, Hre.
  pose proof (reencode_written_nonempty b b' Hsave Hre).
  destruct b'; [congruence | cbn; lia].
Qed.

End Transformed.

(** ** The run as a whole *)

Section Run.
Context `{Pillow}.

Lemma per_file_loop_run (IMG_DIR : string) (listing : list string) (st : state) :
  per_file_loop IMG_DIR listing st
    = (steps listing (mkState (fs st) (stdout st ++ [banner IMG_DIR]) 0 0),
       Ok tt).
Proof.
  unfold per_file_loop, bind, print, reset_totals.
  cbn [fs stdout total_before total_after].
  apply for_each_steps.
Qed.

Lemma main_on_directory (IMG_DIR : string) (listing : list string)
    (d : gmap string entry) :
  main IMG_DIR listing (start (Some d))
    = summary (fst (per_file_loop IMG_DIR listing (start (Some d)))).
Proof.
  unfold main. cbn [isdir start fs negb]. unfold bind.
  rewrite per_file_loop_run. reflexivity.
Qed.

Lemma per_file_loop_totals (IMG_DIR : string) (listing : list string)
    (d : gmap string entry) :
  NoDup listing ->
  let after_loop := fst (per_file_loop IMG_DIR listing (start (Some d))) in
  total_before after_loop = total (size_in d) listing
  /\ total_after after_loop = total (size_after_in d) listing.
Proof.
  intros Hnd. rewrite per_file_loop_run. cbn [fst].
  destruct (loop_totals listing
              (mkState (Some d) ([] ++ [banner IMG_DIR]) 0 0) d d Hnd)
    as [Hb Ha]; [reflexivity | reflexivity |].
  cbn [total_before total_after] in Hb, Ha. cbn [start fs stdout].
  split; lia.
Qed.

Lemma per_file_loop_stdout (IMG_DIR : string) (listing : list string)
    (d : option (gmap string entry)) (l : line) :
  l ∈ stdout (fst (per_file_loop IMG_DIR listing (start d))) ->
  l = banner IMG_DIR
  \/ exists name, line_name l = Some name /\ dispatched name = true.
Proof.
  rewrite per_file_loop_run. cbn [fst start fs stdout app].
  destruct (loop_stdout listing (mkState d [banner IMG_DIR] 0 0))
    as (printed & -> & Hprinted).
  cbn [stdout]. intros Hin. apply elem_of_cons in Hin as [-> | Hin].
  - left. reflexivity.
  - right. apply Hprinted. exact Hin.
Qed.

End Run.

(** ** The summary *)

Section Summary.
Context `{Pillow}.

Lemma summary_fs (st : state) : fs (fst (summary st)) = fs st.
Proof.
  unfold summary. destruct (total_after st =? 0); [reflexivity |].
  destruct (total_before st =? 0); reflexivity.
Qed.

Lemma summary_totals (st : state) :
  total_before (fst (summary st)) = total_before st
  /\ total_after (fst (summary st)) = total_after st.
Proof.
  unfold summary. destruct (total_after st =? 0); [split; reflexivity |].
  destruct (total_before st =? 0); split; reflexivity.
Qed.

Lemma summary_stdout (st : state) (l : line) :
  l ∈ stdout (fst (summary st)) -> l ∈ stdout st \/ line_name l = None.
Proof.
  unfold summary. destruct (total_after st =? 0); [auto |].
  destruct (total_before st =? 0); [auto |].
  cbn. intros Hin. apply elem_of_app in Hin as [Hin | Hin]; [auto |].
  apply list_elem_of_singleton in Hin. subst l. right. reflexivity.
Qed.

Lemma summary_silent (st : state) :
  total_after st = 0 -> summary st = (st, Ok tt).
Proof. intros E. unfold summary. rewrite E. reflexivity. Qed.

Lemma summary_printed (st : state) :
  total_after st <> 0 -> total_before st <> 0 ->
  summary st =
    (mkState (fs st)
       (stdout st ++ [TotalLine (total_before st / 1024) (total_after st / 1024)
                        (Reduction (total_after st) (total_before st))])
       (total_before st) (total_after st), Ok tt).
Proof.
  intros Ha Hb. unfold summary.
  destruct (Z.eqb_spec (total_after st) 0); [contradiction |].
  destruct (Z.eqb_spec (total_before st) 0); [contradiction |].
  reflexivity.
Qed.

End Summary.

(** ** Files the run leaves alone *)

Section Untouched.
Context `{Pillow}.

Lemma main_frame (IMG_DIR : string) (listing : list string)
    (d : option (gmap string entry)) (name : string) :
  dispatched name = false ->
  entry_at name (fst (main IMG_DIR listing (start d)))
    = entry_at name (start d).
Proof.
  intros Hskip. destruct d as [d |].
  - rewrite main_on_directory. unfold entry_at at 1. rewrite summary_fs.
    fold (entry_at name (fst (per_file_loop IMG_DIR listing (start (Some d))))).
    rewrite per_file_loop_run. cbn [fst].
    rewrite (loop_frame listing _ name Hskip). reflexivity.
  - reflexivity.
Qed.

Lemma main_stdout (IMG_DIR : string) (listing : list string)
    (d : option (gmap string entry)) (l : line) (name : string) :
  l ∈ stdout (fst (main IMG_DIR listing (start d))) ->
  line_name l = Some name -> dispatched name = true.
Proof.
  destruct d as [d |].
  - rewrite main_on_directory. intros Hin Hname.
    apply summary_stdout in Hin as [Hin | Hnone]; [| congruence].
    apply per_file_loop_stdout in Hin as [-> | (k & Hk & Hdisp)].
    + discriminate.
    + congruence.
  - cbn. intros Hin Hname. apply list_elem_of_singleton in Hin. subst l.
    discriminate.
Qed.

End Untouched.

(** C5. A file whose lower-cased name is [hero-bread.png] or
    [hero-bread.jpg] is never written by a run: the entry under that
    name is the same after the run as before it, whatever the directory
    holds and in whatever order it is listed. *)
Theorem hero_file_never_modified `{Pillow}
    (IMG_DIR : string) (listing : list string)
    (d : option (gmap string entry)) (name : string) :
  lower name = "hero-bread.png"%string \/ lower name = "hero-bread.jpg"%string ->
  entry_at name (fst (main IMG_DIR listing (start d)))
    = entry_at name (start d).
Proof.
  intros Hhero. apply main_frame. unfold dispatched.
  replace (is_hero (lower name)) with true; [reflexivity |].
  destruct Hhero as [-> | ->]; reflexivity.
Qed.

Lemma hero_file_never_modified_witness :
  entry_at "Hero-Bread.PNG"
    (fst (@main Sample.codec "img" ["Hero-Bread.PNG"; "photo1.JPG"]%string
            (start (Some (<["Hero-Bread.PNG"%string := File Sample.hero]>
                            Sample.two_dir)))))
  = entry_at "Hero-Bread.PNG"
      (start (Some (<["Hero-Bread.PNG"%string := File Sample.hero]>
                      Sample.two_dir))).
Proof.
  apply (@hero_file_never_modified Sample.codec).
  left. reflexivity.
Defined.

(** C6. A file whose lower-cased name is neither the hero name nor ends
    in [.jpg] or [.jpeg] is never modified by a run, and no per-file
    line of the output is about it. *)
Theorem unrecognised_file_untouched_and_unreported `{Pillow}
    (IMG_DIR : string) (listing : list string)
    (d : option (gmap string entry)) (name : string) :
  is_hero (lower name) = false -> is_jpeg (lower name) = false ->
  entry_at name (fst (main IMG_DIR listing (start d)))
    = entry_at name (start d)
  /\ forall l, l ∈ stdout (fst (main IMG_DIR listing (start d))) ->
       line_name l <> Some name.
Proof.
  intros Hhero Hjpeg.
  assert (Hskip : dispatched name = false)
    by (unfold dispatched; rewrite Hjpeg; apply andb_false_r).
  split.
  - apply main_frame. exact Hskip.
  - intros l Hin Hname.
    pose proof (main_stdout IMG_DIR listing d l name Hin Hname). congruence.
Qed.

Lemma unrecognised_file_untouched_and_unreported_witness :
  entry_at "notes.txt"
    (fst (@main Sample.codec "img" Sample.listing (start (Some Sample.img_dir))))
    = entry_at "notes.txt" (start (Some Sample.img_dir))
  /\ forall l,
       l ∈ stdout (fst (@main Sample.codec "img" Sample.listing
                          (start (Some Sample.img_dir)))) ->
       line_name l <> Some "notes.txt"%string.
Proof.
  apply (@unrecognised_file_untouched_and_unreported Sample.codec).
  - reflexivity.
  - reflexivity.
Defined.

(** C7. When [IMG_DIR] is not a directory, the run prints exactly one
    line, which ends with the path [IMG_DIR], changes nothing on disk,
    and returns normally. *)
Theorem missing_directory_reported_and_harmless `{Pillow}
    (IMG_DIR : string) (listing : list string) :
  main IMG_DIR listing (start None)
    = (mkState None [Text ("No img/ directory found at " +:+ IMG_DIR)] 0 0,
       Ok tt).
Proof. reflexivity. Qed.

(** ** The totals and the summary line *)

Section Totals.
Context `{Pillow}.

Lemma no_total_line_in_loop (IMG_DIR : string) (listing : list string)
    (d : option (gmap string entry)) (l : line) :
  l ∈ stdout (fst (per_file_loop IMG_DIR listing (start d))) ->
  is_total_line l = false.
Proof.
  intros Hin.
  apply per_file_loop_stdout in Hin as [-> | (name & Hname & _)].
  - reflexivity.
  - destruct l; try reflexivity. discriminate.
Qed.

Lemma total_after_zero_iff (listing : list string) (d : gmap string entry) :
  saves_nonempty ->
  total (size_after_in d) listing = 0
  <-> forall name, name ∈ listing -> transforms d name = false.
Proof.
  intros Hsave. split.
  - intros Hzero name Hin.
    destruct (transforms d name) eqn:Hyes; [| reflexivity].
    pose proof (size_after_in_transformed d name Hsave Hyes) as Hpos.
    pose proof (total_pos (size_after_in d) listing name
                  (size_after_in_nonneg d) Hin Hpos).
    lia.
  - intros Hnone. apply total_zero. intros name Hin.
    apply size_after_in_untransformed. apply Hnone. exact Hin.
Qed.

Lemma total_before_pos (listing : list string) (d : gmap string entry) :
  (forall name, name ∈ listing -> transforms d name = true ->
                0 < size_in d name) ->
  total (size_after_in d) listing <> 0 ->
  0 < total (size_in d) listing.
Proof.
  intros Hpre Hafter.
  apply total_nonzero in Hafter as (name & Hin & Hnz).
  assert (Hyes : transforms d name = true).
  { destruct (transforms d name) eqn:E; [reflexivity |].
    apply size_after_in_untransformed in E. contradiction. }
  apply (total_pos (size_in d) listing name (size_in_nonneg d) Hin).
  apply Hpre; assumption.
Qed.

End Totals.

(** C8. After the per-file loop, the summary line is printed exactly
    when at least one file was transformed successfully: in that case
    the run ends by adding one total line to what the loop printed, and
    otherwise the run ends as the loop left it, nothing more printed.
    The loop itself prints no total line.  (Assumes what holds of
    Pillow and the file system: a listing names no entry twice, a saved
    image file is not empty, and a transformed file was not empty.) *)
Theorem summary_printed_iff_some_file_transformed `{Pillow}
    (IMG_DIR : string) (listing : list string) (d : gmap string entry) :
  NoDup listing -> saves_nonempty ->
  (forall name, name ∈ listing -> transforms d name = true ->
                0 < size_in d name) ->
  let after_loop := fst (per_file_loop IMG_DIR listing (start (Some d))) in
  (forall l, l ∈ stdout after_loop -> is_total_line l = false)
  /\ ((exists name, name ∈ listing /\ transforms d name = true) ->
      exists kb_before kb_after pct,
        main IMG_DIR listing (start (Some d))
          = (mkState (fs after_loop)
               (stdout after_loop ++ [TotalLine kb_before kb_after pct])
               (total_before after_loop) (total_after after_loop), Ok tt))
  /\ ((forall name, name ∈ listing -> transforms d name = false) ->
      main IMG_DIR listing (start (Some d)) = (after_loop, Ok tt)).
Proof.
  intros Hnd Hsave Hpre after_loop.
  destruct (per_file_loop_totals IMG_DIR listing d Hnd) as [Hb Ha].
  fold after_loop in Hb, Ha.
  split; [| split].
  - intros l. apply no_total_line_in_loop.
  - intros (name & Hin & Hyes).
    assert (Hafter : total_after after_loop <> 0).
    { rewrite Ha. intros Hzero.
      pose proof (proj1 (total_after_zero_iff listing d Hsave) Hzero name Hin).
      congruence. }
    assert (Hbefore : total_before after_loop <> 0).
    { rewrite Hb. rewrite Ha in Hafter.
      pose proof (total_before_pos listing d Hpre Hafter). lia. }
    rewrite main_on_directory. fold after_loop.
    rewrite (summary_printed after_loop Hafter Hbefore). eauto.
  - intros Hnone. rewrite main_on_directory. fold after_loop.
    apply summary_silent. rewrite Ha.
    apply (proj2 (total_after_zero_iff listing d Hsave)). exact Hnone.
Qed.

(** C10. The summary divides by [total_before] with no guard of its
    own, yet never by zero: provided every successfully transformed
    file had a positive size before its transform, a nonzero
    [total_after] at the end of the loop comes with a nonzero
    [total_before], and the run does not raise. *)
Theorem summary_division_is_safe `{Pillow}
    (IMG_DIR : string) (listing : list string) (d : gmap string entry) :
  NoDup listing ->
  (forall name, name ∈ listing -> transforms d name = true ->
                0 < size_in d name) ->
  let after_loop := fst (per_file_loop IMG_DIR listing (start (Some d))) in
  (total_after after_loop <> 0 -> total_before after_loop <> 0)
  /\ snd (main IMG_DIR listing (start (Some d))) = Ok tt.
Proof.
  intros Hnd Hpre after_loop.
  destruct (per_file_loop_totals IMG_DIR listing d Hnd) as [Hb Ha].
  fold after_loop in Hb, Ha.
  assert (Hsafe : total_after after_loop <> 0 -> total_before after_loop <> 0).
  { intros Hafter. rewrite Ha in Hafter. rewrite Hb.
    pose proof (total_before_pos listing d Hpre Hafter). lia. }
  split; [exact Hsafe |].
  rewrite main_on_directory. fold after_loop.
  destruct (Z.eq_dec (total_after after_loop) 0) as [Hzero | Hnz].
  - rewrite (summary_silent after_loop Hzero). reflexivity.
  - rewrite (summary_printed after_loop Hnz (Hsafe Hnz)). reflexivity.
Qed.

Lemma sample_saves_nonempty : @saves_nonempty Sample.codec.
Proof. intros i f b E. injection E as <-. discriminate. Qed.

Lemma sample_listing_nodup : NoDup Sample.listing.
Proof.
  apply (bool_decide_unpack (NoDup Sample.listing)). vm_compute. exact I.
Qed.

Lemma sample_transformed_nonempty (name : string) :
  name ∈ Sample.listing ->
  @transforms Sample.codec Sample.img_dir name = true ->
  0 < size_in Sample.img_dir name.
Proof.
  intros Hin. unfold Sample.listing in Hin.
  repeat (apply elem_of_cons in Hin as [-> | Hin]);
    [vm_compute; intros _; reflexivity
    | vm_compute; discriminate
    | vm_compute; discriminate
    | vm_compute; discriminate
    | vm_compute; discriminate
    | inversion Hin].
Qed.

Lemma summary_printed_iff_some_file_transformed_witness :
  let after_loop :=
    fst (@per_file_loop Sample.codec "img" Sample.listing
           (start (Some Sample.img_dir))) in
  (forall l, l ∈ stdout after_loop -> is_total_line l = false)
  /\ ((exists name, name ∈ Sample.listing
                    /\ @transforms Sample.codec Sample.img_dir name = true) ->
      exists kb_before kb_after pct,
        @main Sample.codec "img" Sample.listing (start (Some Sample.img_dir))
          = (mkState (fs after_loop)
               (stdout after_loop ++ [TotalLine kb_before kb_after pct])
               (total_before after_loop) (total_after after_loop), Ok tt))
  /\ ((forall name, name ∈ Sample.listing ->
                    @transforms Sample.codec Sample.img_dir name = false) ->
      @main Sample.codec "img" Sample.listing (start (Some Sample.img_dir))
        = (after_loop, Ok tt)).
Proof.
  apply (@summary_printed_iff_some_file_transformed Sample.codec).
  - exact sample_listing_nodup.
  - exact sample_saves_nonempty.
  - exact sample_transformed_nonempty.
Defined.

Lemma summary_division_is_safe_witness :
  let after_loop :=
    fst (@per_file_loop Sample.codec "img" Sample.listing
           (start (Some Sample.img_dir))) in
  (total_after after_loop <> 0 -> total_before after_loop <> 0)
  /\ snd (@main Sample.codec "img" Sample.listing
            (start (Some Sample.img_dir))) = Ok tt.
Proof.
  apply (@summary_division_is_safe Sample.codec).
  - exact sample_listing_nodup.
  - exact sample_transformed_nonempty.
Defined.

(** ** Where the totals go wrong *)

Section Accounting.
Context `{Pillow}.

Lemma step_transformed (name : string) (b b' : bytes) (st : state) :
  entry_at name st = Some (File b) -> dispatched name = true ->
  reencode b = Written b' ->
  step name st =
    mkState (insert name (File b') <$> fs st)
      (stdout st ++
         [FileLine name (Z.of_nat (List.length b) / 1024)
            (Z.of_nat (List.length b') / 1024)
            (if Z.of_nat (List.length b) =? 0 then Flat
             else Reduction (Z.of_nat (List.length b'))
                            (Z.of_nat (List.length b)))])
      (total_before st + Z.of_nat (List.length b))
      (total_after st + Z.of_nat (List.length b')).
Proof.
  intros Hb Hdisp Hre. unfold step. rewrite Hb.
  unfold dispatched in Hdisp. apply andb_true_iff in Hdisp as [Hh Hj].
  apply negb_true_iff in Hh. rewrite Hh, Hj, Hre. reflexivity.
Qed.

Lemma step_skipped_file (name : string) (b : bytes) (st : state) :
  entry_at name st = Some (File b) -> dispatched name = false ->
  step name st =
    mkState (fs st) (stdout st)
      (total_before st + Z.of_nat (List.length b)) (total_after st).
Proof.
  intros Hb Hskip. unfold step. rewrite Hb.
  unfold dispatched in Hskip.
  destruct (is_hero (lower name)); [reflexivity |].
  cbn in Hskip. rewrite Hskip. reflexivity.
Qed.

End Accounting.

(** C1, as the code behaves.  A directory holds [photo1.JPG], which is
    transformed, and one more regular file that the dispatcher skips
    (the hero image, or a file with another extension).  The skipped
    file's size is part of [total_before] all the same, and the summary
    line is computed from it: its percentage is a reduction from the
    sum of both sizes, not from the size of [photo1.JPG] alone. *)
Theorem skipped_file_counted_in_total_before `{Pillow}
    (IMG_DIR skipped : string) (photo other photo' : bytes) :
  dispatched skipped = false ->
  reencode photo = Written photo' -> photo <> [] -> photo' <> [] ->
  let d := <["photo1.JPG"%string := File photo]>
             (<[skipped := File other]> (∅ : gmap string entry)) in
  let size_photo := Z.of_nat (List.length photo) in
  let size_other := Z.of_nat (List.length other) in
  let size_after := Z.of_nat (List.length photo') in
  main IMG_DIR ["photo1.JPG"%string; skipped] (start (Some d))
    = (mkState
         (Some (<["photo1.JPG"%string := File photo']> d))
         [banner IMG_DIR;
          FileLine "photo1.JPG" (size_photo / 1024) (size_after / 1024)
            (Reduction size_after size_photo);
          TotalLine ((size_photo + size_other) / 1024) (size_after / 1024)
            (Reduction size_after (size_photo + size_other))]
         (size_photo + size_other) size_after,
       Ok tt).
Proof.
  intros Hskip Hre Hphoto Hphoto' d size_photo size_other size_after.
  assert (Hne : "photo1.JPG"%string <> skipped).
  { intros <-. vm_compute in Hskip. discriminate. }
  assert (Hpos : 0 < size_photo)
    by (subst size_photo; destruct photo; [congruence | cbn; lia]).
  assert (Hpos' : 0 < size_after)
    by (subst size_after; destruct photo'; [congruence | cbn; lia]).
  rewrite main_on_directory, per_file_loop_run. cbn [fst start fs stdout app].
  unfold steps. cbn [fold_left].
  rewrite (step_transformed "photo1.JPG" photo photo');
    [| apply lookup_insert_eq | reflexivity | exact Hre].
  cbn [fs stdout total_before total_after fmap option_fmap option_map app].
  rewrite (step_skipped_file skipped other);
    [| | exact Hskip].
  2:{ unfold entry_at, d. cbn.
      rewrite lookup_insert_ne by exact Hne.
      rewrite lookup_insert_ne by exact Hne.
      apply lookup_insert_eq. }
  cbn [fs stdout total_before total_after].
  rewrite summary_printed; cbn [fs stdout total_before total_after];
    [| fold size_after; lia | fold size_photo size_other; lia].
  fold size_photo size_other size_after.
  destruct (Z.eqb_spec size_photo 0) as [E | _]; [lia |].
  reflexivity.
Qed.

Lemma skipped_file_counted_in_total_before_witness :
  @main Sample.codec "img" Sample.two_listing (start (Some Sample.two_dir))
    = (mkState
         (Some (<["photo1.JPG"%string := File [x09; x04]]> Sample.two_dir))
         [banner "img";
          FileLine "photo1.JPG" (5 / 1024) (2 / 1024) (Reduction 2 5);
          TotalLine ((5 + 8) / 1024) (2 / 1024) (Reduction 2 (5 + 8))]
         (5 + 8) 2,
       Ok tt).
Proof.
  apply (@skipped_file_counted_in_total_before Sample.codec
           "img" "hero-bread.png" Sample.photo1 Sample.hero [x09; x04]).
  - reflexivity.
  - reflexivity.
  - discriminate.
  - discriminate.
Defined.

(** * Further properties of the script *)

(** ** The resizer on every input *)

Section ResizerCases.
Context `{Pillow}.

(** With a threshold that is not negative the resizer takes one of
    three paths, and the division in it has a positive divisor. *)
Lemma resize_to_max_cases (img : image) (m w h : Z) :
  img_size img = (w, h) -> 0 <= m ->
  (w <= m /\ h <= m /\ resize_to_max img m = Ok img)
  \/ (h <= w /\ m < w
      /\ resize_to_max img m = img_resize img (m, Z.quot (h * m) w))
  \/ (w < h /\ m < h
      /\ resize_to_max img m = img_resize img (Z.quot (w * m) h, m)).
Proof.
  intros Hs Hm.
  destruct (Z_le_gt_dec h w) as [Hwh | Hwh].
  - destruct (Z_le_gt_dec w m) as [Hw | Hw].
    + left. split; [exact Hw |]. split; [lia |].
      apply (resize_to_max_keep img m w h Hs); lia.
    + right. left. split; [exact Hwh |]. split; [lia |].
      apply (resize_to_max_wide img m w h Hs Hm Hwh). lia.
  - destruct (Z_le_gt_dec h m) as [Hh | Hh].
    + left. split; [lia |]. split; [exact Hh |].
      apply (resize_to_max_keep img m w h Hs); lia.
    + right. right. split; [lia |]. split; [lia |].
      apply (resize_to_max_tall img m w h Hs Hm); lia.
Qed.

End ResizerCases.

Lemma resize_to_max_bounded `{Pillow} (img out : image) (m : Z) :
  resize_exact -> 0 <= m -> resize_to_max img m = Ok out ->
  fst (img_size out) <= m /\ snd (img_size out) <= m.
Proof.
  intros Hexact Hm Hout.
  destruct (img_size img) as [w h] eqn:Hs.
  destruct (resize_to_max_cases img m w h Hs Hm)
    as [(Hw & Hh & Hkeep) | [(Hwh & Hw & Hcall) | (Hwh & Hh & Hcall)]].
  - rewrite Hkeep in Hout. injection Hout as <-. rewrite Hs. cbn. lia.
  - rewrite Hcall in Hout. apply Hexact in Hout. rewrite Hout. cbn.
    split; [lia |]. apply quot_le_bound; nia.
  - rewrite Hcall in Hout. apply Hexact in Hout. rewrite Hout. cbn.
    split; [| lia]. apply quot_le_bound; nia.
Qed.

(** X1. The docstring of [resize_to_max]: whatever image it returns,
    neither side of it is longer than [max_size]. *)
Theorem resize_to_max_at_most `{Pillow} (img out : image) (max_size : Z) :
  resize_exact -> 0 <= max_size ->
  resize_to_max img max_size = Ok out ->
  fst (img_size out) <= max_size /\ snd (img_size out) <= max_size.
Proof. apply resize_to_max_bounded. Qed.

Lemma resize_to_max_at_most_witness :
  fst (@img_size Sample.codec (450, 900)) <= 900
  /\ snd (@img_size Sample.codec (450, 900)) <= 900.
Proof.
  apply (@resize_to_max_at_most Sample.codec (1000, 2000) (450, 900) 900).
  - exact sample_resize_exact.
  - lia.
  - reflexivity.
Defined.

(** X2. The resizer only ever scales down: an image it returns is no
    wider and no taller than the image it was given. *)
Theorem resize_to_max_never_enlarges `{Pillow}
    (img out : image) (max_size w h : Z) :
  resize_exact -> 0 <= max_size ->
  img_size img = (w, h) -> 0 <= w -> 0 <= h ->
  resize_to_max img max_size = Ok out ->
  fst (img_size out) <= w /\ snd (img_size out) <= h.
Proof.
  intros Hexact Hm Hs Hw0 Hh0 Hout.
  destruct (resize_to_max_cases img max_size w h Hs Hm)
    as [(Hw & Hh & Hkeep) | [(Hwh & Hw & Hcall) | (Hwh & Hh & Hcall)]].
  - rewrite Hkeep in Hout. injection Hout as <-. rewrite Hs. cbn. lia.
  - rewrite Hcall in Hout. apply Hexact in Hout. rewrite Hout. cbn.
    split; [lia |]. apply quot_le_bound; nia.
  - rewrite Hcall in Hout. apply Hexact in Hout. rewrite Hout. cbn.
    split; [| lia]. apply quot_le_bound; nia.
Qed.

Lemma resize_to_max_never_enlarges_witness :
  fst (@img_size Sample.codec (900, 450)) <= 2000
  /\ snd (@img_size Sample.codec (900, 450)) <= 1000.
Proof.
  apply (@resize_to_max_never_enlarges Sample.codec
           (2000, 1000) (900, 450) 900 2000 1000).
  - exact sample_resize_exact.
  - lia.
  - reflexivity.
  - lia.
  - lia.
  - reflexivity.
Defined.

(** X3. The resizer keeps the orientation: a landscape image stays at
    least as wide as tall, a portrait image at least as tall as wide. *)
Theorem resize_to_max_keeps_orientation `{Pillow}
    (img out : image) (max_size w h : Z) :
  resize_exact -> 0 <= max_size ->
  img_size img = (w, h) ->
  resize_to_max img max_size = Ok out ->
  (h <= w -> snd (img_size out) <= fst (img_size out))
  /\ (w <= h -> fst (img_size out) <= snd (img_size out)).
Proof.
  intros Hexact Hm Hs Hout.
  destruct (resize_to_max_cases img max_size w h Hs Hm)
    as [(Hw & Hh & Hkeep) | [(Hwh & Hw & Hcall) | (Hwh & Hh & Hcall)]].
  - rewrite Hkeep in Hout. injection Hout as <-. rewrite Hs. cbn. lia.
  - rewrite Hcall in Hout. apply Hexact in Hout. rewrite Hout. cbn.
    split.
    + intros _. apply quot_le_bound; nia.
    + intros Hhw. replace (h * max_size) with (max_size * w) by nia.
      rewrite Z.quot_mul by lia. lia.
  - rewrite Hcall in Hout. apply Hexact in Hout. rewrite Hout. cbn.
    split; [lia |]. intros _. apply quot_le_bound; nia.
Qed.

Lemma resize_to_max_keeps_orientation_witness :
  (2000 <= 1000 ->
   snd (@img_size Sample.codec (450, 900))
     <= fst (@img_size Sample.codec (450, 900)))
  /\ (1000 <= 2000 ->
      fst (@img_size Sample.codec (450, 900))
        <= snd (@img_size Sample.codec (450, 900))).
Proof.
  apply (@resize_to_max_keeps_orientation Sample.codec
           (1000, 2000) (450, 900) 900 1000 2000).
  - exact sample_resize_exact.
  - lia.
  - reflexivity.
  - reflexivity.
Defined.

(** X4. With a threshold that is not negative the division in the
    resizer never has a zero divisor, whatever the size of the image:
    the resizer either returns the image or returns what Pillow's
    [resize] returns. *)
Theorem resize_to_max_division_defined `{Pillow} (img : image) (max_size : Z) :
  0 <= max_size ->
  resize_to_max img max_size = Ok img
  \/ exists size, resize_to_max img max_size = img_resize img size.
Proof.
  intros Hm. destruct (img_size img) as [w h] eqn:Hs.
  destruct (resize_to_max_cases img max_size w h Hs Hm)
    as [(_ & _ & Hkeep) | [(_ & _ & Hcall) | (_ & _ & Hcall)]].
  - left. exact Hkeep.
  - right. eexists. exact Hcall.
  - right. eexists. exact Hcall.
Qed.

Lemma resize_to_max_division_defined_witness :
  @resize_to_max Sample.codec (0, 0) 0 = Ok (0, 0)
  \/ exists size,
       @resize_to_max Sample.codec (0, 0) 0
         = @img_resize Sample.codec (0, 0) size.
Proof.
  apply (@resize_to_max_division_defined Sample.codec (0, 0) 0). lia.
Defined.

(** X5. With a negative threshold the guard is gone: on an image whose
    longer side is 0 the resizer raises [ZeroDivisionError]. *)
Theorem resize_to_max_negative_threshold_divides_by_zero `{Pillow}
    (img : image) (max_size w h : Z) :
  img_size img = (w, h) -> Z.max w h = 0 -> max_size < 0 ->
  resize_to_max img max_size = Raise ZeroDivisionError.
Proof.
  intros Hs Hmax Hm. unfold resize_to_max. rewrite Hs.
  destruct (Z.geb_spec w h) as [Hwh | Hwh].
  - assert (w = 0) by lia. subst w.
    destruct (Z.leb_spec 0 max_size) as [? | _]; [lia |]. reflexivity.
  - assert (h = 0) by lia. subst h.
    replace ((w <=? max_size) && (0 <=? max_size)) with false
      by (symmetry; apply andb_false_iff; right; apply Z.leb_gt; lia).
    reflexivity.
Qed.

Lemma resize_to_max_negative_threshold_divides_by_zero_witness :
  @resize_to_max Sample.codec (0, 0) (-1) = Raise ZeroDivisionError.
Proof.
  apply (@resize_to_max_negative_threshold_divides_by_zero
           Sample.codec (0, 0) (-1) 0 0).
  - reflexivity.
  - reflexivity.
  - lia.
Defined.

(** ** The two transforms *)

Section Transforms.
Context `{Pillow}.

Lemma store_fields (path : string) (b : bytes) (st : state) :
  stdout (store path b st) = stdout st
  /\ total_before (store path b st) = total_before st
  /\ total_after (store path b st) = total_after st
  /\ isdir (store path b st) = isdir st.
Proof.
  unfold store, isdir. cbn. destruct (fs st); auto.
Qed.

(** Everything [img.save] can do to the state. *)
Lemma image_save_cases (img : image) (path : string) (f : format) (st : state) :
  (exists b, img_save img f = Written b
             /\ image_save img path f st = (store path b st, Ok tt))
  \/ (exists e b, img_save img f = SaveFailed e (Some b)
                  /\ image_save img path f st = (store path b st, Raise e))
  \/ (exists e, img_save img f = SaveFailed e None
                /\ image_save img path f st = (st, Raise e)).
Proof.
  unfold image_save. destruct (img_save img f) as [b | e [b |]]; eauto 6.
Qed.

Lemma bind_ok {A B} (m : M A) (k : A -> M B) (st st' : state) (a : A) :
  m st = (st', Ok a) -> bind m k st = k a st'.
Proof. intros E. unfold bind. rewrite E. reflexivity. Qed.

Lemma bind_raise {A B} (m : M A) (k : A -> M B) (st st' : state) (e : exn) :
  m st = (st', Raise e) -> bind m k st = (st', Raise e).
Proof. intros E. unfold bind. rewrite E. reflexivity. Qed.

Lemma image_open_file (path : string) (b : bytes) (st : state) :
  entry_at path st = Some (File b) -> image_open path st = (st, img_open b).
Proof. intros E. unfold image_open. rewrite E. reflexivity. Qed.

Lemma image_open_missing (path : string) (st : state) :
  isfile path st = false -> image_open path st = (st, Raise FileNotFoundError).
Proof.
  unfold isfile, image_open.
  destruct (entry_at path st) as [[b |] |]; [discriminate | |]; reflexivity.
Qed.

(** [optimize_jpeg] either raises before it saves, the state as it
    was, or gets as far as saving an image that came out of
    [resize_to_max]. *)
Lemma optimize_jpeg_reaches_save (path : string) (st : state) :
  (exists e, optimize_jpeg path st = (st, Raise e))
  \/ exists rgb small,
       resize_to_max rgb GALLERY_MAX = Ok small
       /\ optimize_jpeg path st
          = (exec image_save small path (JPEG JPEG_QUALITY) ; ret path) st.
Proof.
  unfold optimize_jpeg.
  destruct (isfile path st) eqn:Hfile.
  2:{ left. eexists. apply bind_raise. apply image_open_missing. exact Hfile. }
  unfold isfile in Hfile.
  destruct (entry_at path st) as [[b |] |] eqn:Hb; try discriminate.
  pose proof (image_open_file path b st Hb) as Hopen.
  destruct (img_open b) as [img | e].
  2:{ left. eexists. apply bind_raise. exact Hopen. }
  rewrite (bind_ok _ _ _ _ _ Hopen).
  destruct (img_convert img "RGB") as [rgb | e].
  2:{ left. eexists. apply bind_raise. reflexivity. }
  erewrite bind_ok by reflexivity.
  destruct (resize_to_max rgb GALLERY_MAX) as [small | e] eqn:Hsmall.
  2:{ left. eexists. apply bind_raise. reflexivity. }
  erewrite bind_ok by reflexivity.
  right. exists rgb, small. split; [exact Hsmall | reflexivity].
Qed.

(** The same for [optimize_hero]; the image it saves is the resized one
    if that is RGBA already, and its conversion to RGBA otherwise. *)
Lemma optimize_hero_reaches_save (path : string) (st : state) :
  (exists e, optimize_hero path st = (st, Raise e))
  \/ exists img small rgba,
       resize_to_max img HERO_MAX_WIDTH = Ok small
       /\ (img_mode small = "RGBA"%string /\ rgba = small
           \/ img_convert small "RGBA" = Ok rgba)
       /\ optimize_hero path st
          = (exec image_save rgba path PNG ; ret path) st.
Proof.
  unfold optimize_hero.
  destruct (isfile path st) eqn:Hfile.
  2:{ left. eexists. apply bind_raise. apply image_open_missing. exact Hfile. }
  unfold isfile in Hfile.
  destruct (entry_at path st) as [[b |] |] eqn:Hb; try discriminate.
  pose proof (image_open_file path b st Hb) as Hopen.
  destruct (img_open b) as [img | e].
  2:{ left. eexists. apply bind_raise. exact Hopen. }
  rewrite (bind_ok _ _ _ _ _ Hopen).
  destruct (resize_to_max img HERO_MAX_WIDTH) as [small | e] eqn:Hsmall.
  2:{ left. eexists. apply bind_raise. reflexivity. }
  erewrite bind_ok by reflexivity.
  destruct (String.eqb_spec (img_mode small) "RGBA") as [Hmode | Hmode].
  - right. exists img, small, small. split; [exact Hsmall |].
    split; [left; auto |].
    erewrite bind_ok by reflexivity. reflexivity.
  - destruct (img_convert small "RGBA") as [rgba | e] eqn:Hconv.
    2:{ left. eexists. apply bind_raise. reflexivity. }
    right. exists img, small, rgba. split; [exact Hsmall |].
    split; [right; exact Hconv |].
    erewrite bind_ok by reflexivity. reflexivity.
Qed.

(** A failed call changes the state only by what a failed save left in
    the file; a successful one only by what the save wrote. *)
Lemma save_then_ret_cases (img : image) (path : string) (f : format)
    (st : state) :
  (exists b, img_save img f = Written b
             /\ (exec image_save img path f ; ret path) st
                = (store path b st, Ok path))
  \/ (exists e b, img_save img f = SaveFailed e (Some b)
                  /\ (exec image_save img path f ; ret path) st
                     = (store path b st, Raise e))
  \/ (exists e, img_save img f = SaveFailed e None
                /\ (exec image_save img path f ; ret path) st
                   = (st, Raise e)).
Proof.
  unfold bind.
  destruct (image_save_cases img path f st)
    as [(b & Hs & ->) | [(e & b & Hs & ->) | (e & Hs & ->)]]; eauto 7.
Qed.

Lemma transform_frame (run : M string) (path : string) (st : state) :
  ((exists e, run st = (st, Raise e))
   \/ exists img f, run st = (exec image_save img path f ; ret path) st) ->
  stdout (fst (run st)) = stdout st
  /\ total_before (fst (run st)) = total_before st
  /\ total_after (fst (run st)) = total_after st
  /\ isdir (fst (run st)) = isdir st
  /\ forall k, k <> path -> entry_at k (fst (run st)) = entry_at k st.
Proof.
  intros [(e & ->) | (img & f & ->)].
  - cbn. auto.
  - destruct (save_then_ret_cases img path f st)
      as [(b & _ & ->) | [(e & b & _ & ->) | (e & _ & ->)]]; cbn [fst].
    + destruct (store_fields path b st) as (? & ? & ? & ?).
      repeat split; try assumption.
      intros k Hk. apply entry_at_store_ne. congruence.
    + destruct (store_fields path b st) as (? & ? & ? & ?).
      repeat split; try assumption.
      intros k Hk. apply entry_at_store_ne. congruence.
    + auto.
Qed.

End Transforms.

(** X6. [optimize_jpeg] works on the file at [path] and on nothing
    else: it prints nothing, leaves the totals alone, and every other
    entry of the directory is after the call what it was before. *)
Theorem optimize_jpeg_touches_only_its_path `{Pillow}
    (path : string) (st : state) :
  stdout (fst (optimize_jpeg path st)) = stdout st
  /\ total_before (fst (optimize_jpeg path st)) = total_before st
  /\ total_after (fst (optimize_jpeg path st)) = total_after st
  /\ isdir (fst (optimize_jpeg path st)) = isdir st
  /\ forall k, k <> path ->
       entry_at k (fst (optimize_jpeg path st)) = entry_at k st.
Proof.
  apply transform_frame.
  destruct (optimize_jpeg_reaches_save path st)
    as [Hfail | (rgb & small & _ & Hrun)]; [left; exact Hfail |].
  right. eauto.
Qed.

(** X7. When [optimize_jpeg] raises, the file is as it was unless the
    exception came from [img.save] itself and that call had already
    written: opening, converting and resizing never touch the disk. *)
Theorem optimize_jpeg_failure_leaves_file `{Pillow}
    (path : string) (st st' : state) (e : exn) :
  optimize_jpeg path st = (st', Raise e) ->
  st' = st
  \/ exists small b,
       img_save small (JPEG JPEG_QUALITY) = SaveFailed e (Some b)
       /\ st' = store path b st.
Proof.
  intros Hrun.
  destruct (optimize_jpeg_reaches_save path st)
    as [(e0 & Hfail) | (rgb & small & _ & Hsave)].
  - rewrite Hfail in Hrun. injection Hrun as <- _. left. reflexivity.
  - rewrite Hsave in Hrun.
    destruct (save_then_ret_cases small path (JPEG JPEG_QUALITY) st)
      as [(b & _ & Hr) | [(e1 & b & Hs & Hr) | (e1 & _ & Hr)]];
      rewrite Hr in Hrun.
    + discriminate.
    + injection Hrun as <- <-. right. eauto.
    + injection Hrun as <- _. left. reflexivity.
Qed.

Lemma optimize_jpeg_failure_leaves_file_witness :
  start (Some Sample.img_dir) = start (Some Sample.img_dir)
  \/ exists small b,
       @img_save Sample.codec small (JPEG JPEG_QUALITY)
         = SaveFailed (ImageError "cannot identify image file") (Some b)
       /\ start (Some Sample.img_dir)
          = store "broken.jpg" b (start (Some Sample.img_dir)).
Proof.
  apply (@optimize_jpeg_failure_leaves_file Sample.codec "broken.jpg"
           (start (Some Sample.img_dir)) (start (Some Sample.img_dir))
           (ImageError "cannot identify image file")).
  reflexivity.
Defined.

(** X8. [optimize_jpeg] needs a regular file: on a path that is a
    directory or does not exist it raises and changes nothing. *)
Theorem optimize_jpeg_needs_regular_file `{Pillow}
    (path : string) (st : state) :
  isfile path st = false ->
  exists e, optimize_jpeg path st = (st, Raise e).
Proof.
  unfold isfile, optimize_jpeg, bind, image_open.
  destruct (entry_at path st) as [[b |] |]; [discriminate | |]; eauto.
Qed.

Lemma optimize_jpeg_needs_regular_file_witness :
  exists e,
    @optimize_jpeg Sample.codec "raw" (start (Some Sample.img_dir))
      = (start (Some Sample.img_dir), Raise e).
Proof.
  apply (@optimize_jpeg_needs_regular_file Sample.codec "raw"
           (start (Some Sample.img_dir))).
  reflexivity.
Defined.

(** X9. When [optimize_jpeg] returns, the file at [path] holds what
    Pillow's JPEG encoder at quality 85 wrote for an image with neither
    side over 900 pixels, and the call returns [path]. *)
Theorem optimize_jpeg_saves_within_gallery_size `{Pillow}
    (path p : string) (st st' : state) :
  resize_exact ->
  optimize_jpeg path st = (st', Ok p) ->
  p = path
  /\ exists small b,
       img_save small (JPEG JPEG_QUALITY) = Written b
       /\ fst (img_size small) <= GALLERY_MAX
       /\ snd (img_size small) <= GALLERY_MAX
       /\ st' = store path b st
       /\ entry_at path st' = Some (File b).
Proof.
  intros Hexact Hrun.
  destruct (optimize_jpeg_reaches_save path st)
    as [(e0 & Hfail) | (rgb & small & Hsmall & Hsave)].
  - rewrite Hfail in Hrun. discriminate.
  - assert (Hdir : isdir st = true).
    { unfold optimize_jpeg, bind, image_open in Hrun.
      destruct (entry_at path st) as [[b |] |] eqn:Hb; try discriminate.
      eapply entry_at_isdir. exact Hb. }
    rewrite Hsave in Hrun.
    destruct (save_then_ret_cases small path (JPEG JPEG_QUALITY) st)
      as [(b & Hs & Hr) | [(e1 & b & _ & Hr) | (e1 & _ & Hr)]];
      rewrite Hr in Hrun; try discriminate.
    injection Hrun as <- <-. split; [reflexivity |].
    exists small, b.
    destruct (resize_to_max_bounded rgb small GALLERY_MAX Hexact
                ltac:(unfold GALLERY_MAX; lia) Hsmall) as [Hw Hh].
    repeat split; try assumption.
    apply entry_at_store_eq. exact Hdir.
Qed.

Lemma optimize_jpeg_saves_within_gallery_size_witness :
  "photo1.JPG"%string = "photo1.JPG"%string
  /\ exists small b,
       @img_save Sample.codec small (JPEG JPEG_QUALITY) = Written b
       /\ fst (@img_size Sample.codec small) <= GALLERY_MAX
       /\ snd (@img_size Sample.codec small) <= GALLERY_MAX
       /\ store "photo1.JPG" [x09; x04] (start (Some Sample.two_dir))
          = store "photo1.JPG" b (start (Some Sample.two_dir))
       /\ entry_at "photo1.JPG"
            (store "photo1.JPG" [x09; x04] (start (Some Sample.two_dir)))
          = Some (File b).
Proof.
  apply (@optimize_jpeg_saves_within_gallery_size Sample.codec
           "photo1.JPG" "photo1.JPG" (start (Some Sample.two_dir))).
  - exact sample_resize_exact.
  - reflexivity.
Defined.

(** X10. [optimize_hero] works on the file at [path] and on nothing
    else, as [optimize_jpeg] does. *)
Theorem optimize_hero_touches_only_its_path `{Pillow}
    (path : string) (st : state) :
  stdout (fst (optimize_hero path st)) = stdout st
  /\ total_before (fst (optimize_hero path st)) = total_before st
  /\ total_after (fst (optimize_hero path st)) = total_after st
  /\ isdir (fst (optimize_hero path st)) = isdir st
  /\ forall k, k <> path ->
       entry_at k (fst (optimize_hero path st)) = entry_at k st.
Proof.
  apply transform_frame.
  destruct (optimize_hero_reaches_save path st)
    as [Hfail | (img & small & rgba & _ & _ & Hrun)]; [left; exact Hfail |].
  right. eauto.
Qed.

(** X11. When [optimize_hero] returns, the file at [path] holds what
    Pillow's PNG encoder wrote for an image in mode RGBA with neither
    side over 1200 pixels: although the constant is called a maximum
    width, it bounds the height as well. *)
Theorem optimize_hero_saves_rgba_within_hero_size `{Pillow}
    (path p : string) (st st' : state) :
  resize_exact -> convert_exact ->
  optimize_hero path st = (st', Ok p) ->
  p = path
  /\ exists rgba b,
       img_save rgba PNG = Written b
       /\ img_mode rgba = "RGBA"%string
       /\ fst (img_size rgba) <= HERO_MAX_WIDTH
       /\ snd (img_size rgba) <= HERO_MAX_WIDTH
       /\ st' = store path b st
       /\ entry_at path st' = Some (File b).
Proof.
  intros Hexact Hconvert Hrun.
  destruct (optimize_hero_reaches_save path st)
    as [(e0 & Hfail) | (img & small & rgba & Hsmall & Hrgba & Hsave)].
  - rewrite Hfail in Hrun. discriminate.
  - assert (Hdir : isdir st = true).
    { unfold optimize_hero, bind, image_open in Hrun.
      destruct (entry_at path st) as [[b |] |] eqn:Hb; try discriminate.
      eapply entry_at_isdir. exact Hb. }
    destruct (resize_to_max_bounded img small HERO_MAX_WIDTH Hexact
                ltac:(unfold HERO_MAX_WIDTH; lia) Hsmall) as [Hw Hh].
    assert (Hmode : img_mode rgba = "RGBA"%string
                    /\ img_size rgba = img_size small).
    { destruct Hrgba as [[Hm ->] | Hc]; [auto |].
      apply Hconvert. exact Hc. }
    destruct Hmode as [Hmode Hsize].
    rewrite Hsave in Hrun.
    destruct (save_then_ret_cases rgba path PNG st)
      as [(b & Hs & Hr) | [(e1 & b & _ & Hr) | (e1 & _ & Hr)]];
      rewrite Hr in Hrun; try discriminate.
    injection Hrun as <- <-. split; [reflexivity |].
    exists rgba, b. rewrite Hsize.
    repeat split; try assumption.
    apply entry_at_store_eq. exact Hdir.
Qed.

Lemma modes_resize_exact : @resize_exact Modes.codec.
Proof.
  intros i s i'. cbn. unfold Modes.modes_resize.
  destruct ((1 <=? fst s) && (1 <=? snd s)); [| discriminate].
  intros E. injection E as <-. reflexivity.
Qed.

Lemma modes_convert_exact : @convert_exact Modes.codec.
Proof.
  intros i m i'. cbn. intros E. injection E as <-. split; reflexivity.
Qed.

Lemma optimize_hero_saves_rgba_within_hero_size_witness :
  "hero-bread.png"%string = "hero-bread.png"%string
  /\ exists rgba b,
       @img_save Modes.codec rgba PNG = Written b
       /\ @img_mode Modes.codec rgba = "RGBA"%string
       /\ fst (@img_size Modes.codec rgba) <= HERO_MAX_WIDTH
       /\ snd (@img_size Modes.codec rgba) <= HERO_MAX_WIDTH
       /\ store "hero-bread.png" [x0c; x06] (start (Some Modes.hero_dir))
          = store "hero-bread.png" b (start (Some Modes.hero_dir))
       /\ entry_at "hero-bread.png"
            (store "hero-bread.png" [x0c; x06] (start (Some Modes.hero_dir)))
          = Some (File b).
Proof.
  apply (@optimize_hero_saves_rgba_within_hero_size Modes.codec
           "hero-bread.png" "hero-bread.png" (start (Some Modes.hero_dir))).
  - exact modes_resize_exact.
  - exact modes_convert_exact.
  - reflexivity.
Defined.

(** ** The shape of a run *)

Section RunShape.
Context `{Pillow}.

Lemma entry_at_fs (k : string) (st1 st2 : state) :
  fs st1 = fs st2 -> entry_at k st1 = entry_at k st2.
Proof. intros E. unfold entry_at. rewrite E. reflexivity. Qed.

Lemma entry_at_written (k : string) (b b' : bytes) (st st' : state) :
  entry_at k st = Some (File b) ->
  fs st' = insert k (File b') <$> fs st ->
  entry_at k st' = Some (File b').
Proof.
  intros Hb Hfs. unfold entry_at in *. rewrite Hfs.
  destruct (fs st) as [d |]; [| discriminate]. cbn.
  apply lookup_insert_eq.
Qed.

Lemma step_not_file (name : string) (st : state) :
  isfile name st = false -> step name st = st.
Proof.
  unfold isfile, step.
  destruct (entry_at name st) as [[b |] |]; [discriminate | |]; reflexivity.
Qed.

(** A step rewrites at most one regular file, in place. *)
Lemma step_entry_cases (k name : string) (st : state) :
  entry_at k (step name st) = entry_at k st
  \/ exists b b', entry_at k st = Some (File b)
                  /\ entry_at k (step name st) = Some (File b').
Proof.
  destruct (String.eqb_spec name k) as [-> | Hne];
    [| left; apply step_other; exact Hne].
  unfold step.
  destruct (entry_at k st) as [[b |] |] eqn:Hb; try (left; exact Hb).
  destruct (is_hero (lower k)); [left; exact Hb |].
  destruct (is_jpeg (lower k)); [| left; exact Hb].
  destruct (reencode b) as [b' | e [b' |]].
  - right. exists b, b'. split; [reflexivity |].
    eapply entry_at_written; [exact Hb | reflexivity].
  - right. exists b, b'. split; [reflexivity |].
    eapply entry_at_written; [exact Hb | reflexivity].
  - left. exact Hb.
Qed.

Lemma steps_entry_cases (k : string) (names : list string) (st : state) :
  entry_at k (steps names st) = entry_at k st
  \/ exists b b', entry_at k st = Some (File b)
                  /\ entry_at k (steps names st) = Some (File b').
Proof.
  revert st. induction names as [| name rest IH]; intros st.
  - left. reflexivity.
  - unfold steps. cbn [fold_left]. fold (steps rest (step name st)).
    destruct (IH (step name st)) as [Hsame | (b1 & b2 & Hb1 & Hb2)];
      destruct (step_entry_cases k name st) as [Hstep | (b & b' & Hb & Hb')].
    + left. congruence.
    + right. exists b, b'. split; [exact Hb | congruence].
    + right. exists b1, b2. split; [congruence | exact Hb2].
    + right. exists b, b2. split; [exact Hb | exact Hb2].
Qed.

Lemma isfile_of_entry (k : string) (st st' : state) :
  (entry_at k st' = entry_at k st
   \/ exists b b', entry_at k st = Some (File b)
                   /\ entry_at k st' = Some (File b')) ->
  isfile k st' = isfile k st.
Proof.
  unfold isfile. intros [-> | (b & b' & -> & ->)]; reflexivity.
Qed.

Lemma step_isfile (k name : string) (st : state) :
  isfile k (step name st) = isfile k st.
Proof. apply isfile_of_entry. apply step_entry_cases. Qed.

Lemma steps_app (pre post : list string) (st : state) :
  steps (pre ++ post) st = steps post (steps pre st).
Proof. unfold steps. apply fold_left_app. Qed.

Lemma steps_cons (name : string) (rest : list string) (st : state) :
  steps (name :: rest) st = steps rest (step name st).
Proof. reflexivity. Qed.

(** The names of the lines a step prints. *)
Lemma step_lines (name : string) (st : state) :
  exists printed,
    stdout (step name st) = stdout st ++ printed
    /\ omap line_name printed
       = if isfile name st && dispatched name then [name] else [].
Proof.
  unfold step, isfile, dispatched.
  destruct (entry_at name st) as [[b |] |];
    try (exists []; split; [symmetry; apply app_nil_r | reflexivity]).
  destruct (is_hero (lower name));
    [exists []; split; [symmetry; apply app_nil_r | reflexivity] |].
  destruct (is_jpeg (lower name));
    [| exists []; split; [symmetry; apply app_nil_r | reflexivity]].
  destruct (reencode b) as [b' | e kept];
    (eexists [_]; split; [reflexivity | reflexivity]).
Qed.

Lemma steps_lines (names : list string) (st : state) :
  exists printed,
    stdout (steps names st) = stdout st ++ printed
    /\ omap line_name printed
       = List.filter (fun n => isfile n st && dispatched n) names.
Proof.
  revert st. induction names as [| name rest IH]; intros st.
  - exists []. split; [symmetry; apply app_nil_r | reflexivity].
  - rewrite steps_cons.
    destruct (IH (step name st)) as (later & Hlater & Hnames).
    destruct (step_lines name st) as (now & Hnow & Hname).
    exists (now ++ later). split.
    + rewrite Hlater, Hnow. symmetry. apply app_assoc.
    + rewrite omap_app, Hname, Hnames. cbn [List.filter].
      rewrite (List.filter_ext (fun n => isfile n (step name st) && dispatched n)
                 (fun n => isfile n st && dispatched n))
        by (intros n; rewrite step_isfile; reflexivity).
      destruct (isfile name st && dispatched name); reflexivity.
Qed.

(** Entries that are not regular files could as well not be listed. *)
Lemma steps_regular_files (names : list string) (st st0 : state) :
  (forall k, isfile k st = isfile k st0) ->
  steps names st = steps (List.filter (fun n => isfile n st0) names) st.
Proof.
  revert st. induction names as [| name rest IH]; intros st Hsame.
  - reflexivity.
  - rewrite steps_cons. cbn [List.filter].
    destruct (isfile name st0) eqn:Hfile.
    + rewrite steps_cons. apply IH.
      intros k. rewrite step_isfile. apply Hsame.
    + rewrite step_not_file by (rewrite Hsame; exact Hfile).
      apply IH. exact Hsame.
Qed.

Lemma summary_appends (st : state) :
  exists tail,
    stdout (fst (summary st)) = stdout st ++ tail
    /\ omap line_name tail = [].
Proof.
  unfold summary. destruct (total_after st =? 0);
    [exists []; split; [symmetry; apply app_nil_r | reflexivity] |].
  destruct (total_before st =? 0);
    [exists []; split; [symmetry; apply app_nil_r | reflexivity] |].
  eexists [_]. split; reflexivity.
Qed.

Lemma filter_none (names : list string) :
  List.filter (fun _ : string => false) names = [].
Proof. induction names as [| n rest IH]; [reflexivity | exact IH]. Qed.

End RunShape.

(** X14. The per-file lines of a run are about the listed regular files
    that the dispatcher sends to the JPEG transform, one line each, in
    the order of the listing; the hero image, other extensions and
    directories get none. *)
Theorem per_file_lines_follow_listing `{Pillow}
    (IMG_DIR : string) (listing : list string)
    (d : option (gmap string entry)) :
  omap line_name (stdout (fst (main IMG_DIR listing (start d))))
    = List.filter (fun n => isfile n (start d) && dispatched n) listing.
Proof.
  destruct d as [d |].
  - rewrite main_on_directory, per_file_loop_run. cbn [fst start fs stdout app].
    destruct (summary_appends
                (steps listing (mkState (Some d) [banner IMG_DIR] 0 0)))
      as (tail & -> & Htail).
    destruct (steps_lines listing (mkState (Some d) [banner IMG_DIR] 0 0))
      as (printed & -> & Hprinted).
    cbn [stdout]. rewrite !omap_app, Htail, Hprinted. cbn.
    rewrite app_nil_r. reflexivity.
  - cbn. symmetry. apply filter_none.
Qed.

(** X15. Listed entries that are not regular files (subdirectories,
    names that no longer exist) have no effect at all: the run is the
    run over the listing without them. *)
Theorem non_files_are_ignored `{Pillow}
    (IMG_DIR : string) (listing : list string)
    (d : option (gmap string entry)) :
  main IMG_DIR listing (start d)
    = main IMG_DIR (List.filter (fun n => isfile n (start d)) listing)
        (start d).
Proof.
  destruct d as [d |]; [| reflexivity].
  rewrite !main_on_directory, !per_file_loop_run. cbn [fst].
  f_equal. apply steps_regular_files. intros k. reflexivity.
Qed.

(** X16. A run never creates, deletes or changes the kind of an entry:
    regular files stay regular files, directories stay as they are and
    names that were absent stay absent. *)
Theorem run_keeps_directory_structure `{Pillow}
    (IMG_DIR : string) (listing : list string)
    (d : option (gmap string entry)) (k : string) :
  let final := fst (main IMG_DIR listing (start d)) in
  isfile k final = isfile k (start d)
  /\ (entry_at k final = None <-> entry_at k (start d) = None)
  /\ (entry_at k final = Some Directory
      <-> entry_at k (start d) = Some Directory).
Proof.
  cbn zeta.
  assert (Hcases :
    entry_at k (fst (main IMG_DIR listing (start d))) = entry_at k (start d)
    \/ exists b b', entry_at k (start d) = Some (File b)
         /\ entry_at k (fst (main IMG_DIR listing (start d))) = Some (File b')).
  { destruct d as [d |]; [| left; reflexivity].
    rewrite main_on_directory, per_file_loop_run. cbn [fst].
    rewrite (entry_at_fs k (fst (summary _)) _ (summary_fs _)).
    destruct (steps_entry_cases k listing
                (mkState (fs (start (Some d)))
                   (stdout (start (Some d)) ++ [banner IMG_DIR]) 0 0))
      as [Hsame | (b & b' & Hb & Hb')].
    - left. rewrite Hsame. reflexivity.
    - right. exists b, b'. split; [exact Hb | exact Hb']. }
  split; [apply isfile_of_entry; exact Hcases |].
  destruct Hcases as [-> | (b & b' & -> & ->)];
    split; split; intros E; try exact E; discriminate.
Qed.

(** ** A run, file by file *)

Section FileByFile.
Context `{Pillow}.

Lemma steps_other (names : list string) (k : string) (st : state) :
  k ∉ names -> entry_at k (steps names st) = entry_at k st.
Proof.
  revert st. induction names as [| name rest IH]; intros st Hk.
  - reflexivity.
  - rewrite steps_cons. apply not_elem_of_cons in Hk as [Hne Hrest].
    rewrite IH by exact Hrest. apply step_other. congruence.
Qed.

Lemma optimize_jpeg_missing (path : string) (st : state) :
  isfile path st = false ->
  optimize_jpeg path st = (st, Raise FileNotFoundError).
Proof.
  intros Hfile. unfold optimize_jpeg.
  apply bind_raise. apply image_open_missing. exact Hfile.
Qed.

(** What [optimize_jpeg] makes of the file at [k] depends on that file
    alone. *)
Lemma optimize_jpeg_local (k : string) (st1 st2 : state) :
  entry_at k st1 = entry_at k st2 ->
  entry_at k (fst (optimize_jpeg k st1)) = entry_at k (fst (optimize_jpeg k st2))
  /\ snd (optimize_jpeg k st1) = snd (optimize_jpeg k st2).
Proof.
  intros Hsame.
  destruct (entry_at k st2) as [[b |] |] eqn:Hb2.
  - pose proof (entry_at_isdir k st1 _ Hsame) as Hd1.
    pose proof (entry_at_isdir k st2 _ Hb2) as Hd2.
    rewrite (optimize_jpeg_run k b st1 Hsame), (optimize_jpeg_run k b st2 Hb2).
    destruct (reencode b) as [b' | e [b' |]]; cbn [fst snd].
    + rewrite !entry_at_store_eq by assumption. auto.
    + rewrite !entry_at_store_eq by assumption. auto.
    + rewrite Hsame, Hb2. auto.
  - rewrite !optimize_jpeg_missing
      by (unfold isfile; rewrite ?Hsame, ?Hb2; reflexivity).
    cbn. rewrite Hsame, Hb2. auto.
  - rewrite !optimize_jpeg_missing
      by (unfold isfile; rewrite ?Hsame, ?Hb2; reflexivity).
    cbn. rewrite Hsame, Hb2. auto.
Qed.

(** A step over [k] makes of the file at [k] what [optimize_jpeg] makes
    of it, if the dispatcher sends it there. *)
Lemma step_self (k : string) (st : state) :
  entry_at k (step k st)
    = if isfile k st && dispatched k
      then entry_at k (fst (optimize_jpeg k st))
      else entry_at k st.
Proof.
  unfold step, isfile, dispatched.
  destruct (entry_at k st) as [[b |] |] eqn:Hb; try exact Hb.
  pose proof (entry_at_isdir k st _ Hb) as Hdir.
  cbn [andb].
  destruct (is_hero (lower k)); [exact Hb |]. cbn [negb andb].
  destruct (is_jpeg (lower k)); [| exact Hb].
  rewrite (optimize_jpeg_run k b st Hb).
  destruct (reencode b) as [b' | e [b' |]]; cbn [fst].
  - rewrite entry_at_store_eq by exact Hdir.
    eapply entry_at_written; [exact Hb | reflexivity].
  - rewrite entry_at_store_eq by exact Hdir.
    eapply entry_at_written; [exact Hb | reflexivity].
  - reflexivity.
Qed.

Lemma steps_listed_entry (names : list string) (k : string) (st st0 : state) :
  NoDup names -> k ∈ names -> entry_at k st = entry_at k st0 ->
  entry_at k (steps names st)
    = if isfile k st0 && dispatched k
      then entry_at k (fst (optimize_jpeg k st0))
      else entry_at k st0.
Proof.
  intros Hnd Hin Hsame.
  apply list_elem_of_split in Hin as (pre & post & ->).
  apply NoDup_app in Hnd as (_ & Hpre & Hpost).
  apply NoDup_cons in Hpost as [Hpost _].
  assert (Hk : k ∉ pre).
  { intros Hin. apply (Hpre k Hin). apply list_elem_of_here. }
  rewrite steps_app, steps_cons, (steps_other post k) by exact Hpost.
  rewrite step_self.
  assert (Hbefore : entry_at k (steps pre st) = entry_at k st0)
    by (rewrite steps_other by exact Hk; exact Hsame).
  replace (isfile k (steps pre st)) with (isfile k st0)
    by (unfold isfile; rewrite Hbefore; reflexivity).
  destruct (isfile k st0 && dispatched k); [| exact Hbefore].
  apply optimize_jpeg_local. exact Hbefore.
Qed.

Lemma main_entry (IMG_DIR : string) (listing : list string)
    (d : gmap string entry) (k : string) :
  NoDup listing ->
  entry_at k (fst (main IMG_DIR listing (start (Some d))))
    = if bool_decide (k ∈ listing) && isfile k (start (Some d)) && dispatched k
      then entry_at k (fst (optimize_jpeg k (start (Some d))))
      else d !! k.
Proof.
  intros Hnd. rewrite main_on_directory.
  rewrite (entry_at_fs k (fst (summary _)) _ (summary_fs _)).
  rewrite per_file_loop_run. cbn [fst].
  destruct (bool_decide_reflect (k ∈ listing)) as [Hin | Hout]; cbn [andb].
  - rewrite (steps_listed_entry listing k _ (start (Some d)) Hnd Hin)
      by reflexivity.
    destruct (isfile k (start (Some d)) && dispatched k); reflexivity.
  - rewrite steps_other by exact Hout. reflexivity.
Qed.

(** The line a step prints, from the directory it runs in. *)
Lemma step_report (name : string) (st : state) (now : gmap string entry) :
  fs st = Some now ->
  stdout (step name st)
    = stdout st ++ match report now name with Some l => [l] | None => [] end.
Proof.
  intros Hnow. unfold step, report, entry_at, dispatched. rewrite Hnow. cbn.
  destruct (now !! name) as [[b |] |];
    try (symmetry; apply app_nil_r).
  destruct (is_hero (lower name)); cbn; [symmetry; apply app_nil_r |].
  destruct (is_jpeg (lower name)); cbn; [| symmetry; apply app_nil_r].
  destruct (reencode b) as [b' | e kept]; reflexivity.
Qed.

Lemma report_same (d now : gmap string entry) (name : string) :
  now !! name = d !! name -> report now name = report d name.
Proof. intros E. unfold report. rewrite E. reflexivity. Qed.

Lemma steps_report (names : list string) (st : state)
    (d now : gmap string entry) :
  NoDup names -> fs st = Some now ->
  (forall name, name ∈ names -> now !! name = d !! name) ->
  stdout (steps names st) = stdout st ++ omap (report d) names.
Proof.
  intros Hnd. revert st now.
  induction Hnd as [| name rest Hfresh Hnd IH]; intros st now Hnow Hsame.
  - cbn. symmetry. apply app_nil_r.
  - rewrite steps_cons.
    assert (Hdir : isdir (step name st) = true)
      by (rewrite step_isdir; unfold isdir; rewrite Hnow; reflexivity).
    unfold isdir in Hdir.
    destruct (fs (step name st)) as [next |] eqn:Hnext; [| discriminate].
    rewrite (IH (step name st) next Hnext).
    + rewrite (step_report name st now Hnow).
      rewrite (report_same d now name)
        by (apply Hsame; apply list_elem_of_here).
      rewrite <- app_assoc. f_equal. cbn [omap list_omap].
      destruct (report d name); reflexivity.
    + intros k Hk.
      assert (Hne : name <> k) by (intros ->; contradiction).
      pose proof (step_other name k st Hne) as Hk'.
      unfold entry_at in Hk'. rewrite Hnext, Hnow in Hk'. cbn in Hk'.
      rewrite Hk'. apply Hsame. apply list_elem_of_further. exact Hk.
Qed.

(** Everything a run over an existing directory prints. *)
Lemma main_stdout_report (IMG_DIR : string) (listing : list string)
    (d : gmap string entry) :
  NoDup listing ->
  exists tail,
    stdout (fst (main IMG_DIR listing (start (Some d))))
      = banner IMG_DIR :: omap (report d) listing ++ tail
    /\ omap line_name tail = []
    /\ tail = (if total (size_after_in d) listing =? 0 then []
               else if total (size_in d) listing =? 0 then []
               else [TotalLine (total (size_in d) listing / 1024)
                       (total (size_after_in d) listing / 1024)
                       (Reduction (total (size_after_in d) listing)
                                  (total (size_in d) listing))]).
Proof.
  intros Hnd. rewrite main_on_directory.
  destruct (per_file_loop_totals IMG_DIR listing d Hnd) as [Hb Ha].
  assert (Hout : stdout (fst (per_file_loop IMG_DIR listing (start (Some d))))
                 = banner IMG_DIR :: omap (report d) listing).
  { rewrite per_file_loop_run. cbn [fst start fs stdout app].
    rewrite (steps_report listing _ d d Hnd); [reflexivity | reflexivity |].
    intros; reflexivity. }
  set (after_loop := fst (per_file_loop IMG_DIR listing (start (Some d)))) in *.
  unfold summary. rewrite Ha, Hb.
  destruct (total (size_after_in d) listing =? 0).
  - exists []. cbn [fst]. rewrite Hout, app_nil_r. auto.
  - destruct (total (size_in d) listing =? 0).
    + exists []. cbn [fst]. rewrite Hout, app_nil_r. auto.
    + eexists [_]. cbn [fst stdout print]. rewrite Hout.
      split; [reflexivity |]. split; reflexivity.
Qed.

Lemma report_of_run (d : gmap string entry) (name : string) (b : bytes) :
  d !! name = Some (File b) -> dispatched name = true ->
  match optimize_jpeg name (start (Some d)) with
  | (alone, Ok _) =>
      exists b', entry_at name alone = Some (File b')
        /\ report d name
           = Some (FileLine name (Z.of_nat (List.length b) / 1024)
                     (Z.of_nat (List.length b') / 1024)
                     (if Z.of_nat (List.length b) =? 0 then Flat
                      else Reduction (Z.of_nat (List.length b'))
                                     (Z.of_nat (List.length b))))
  | (alone, Raise e) => report d name = Some (SkipLine name e)
  end.
Proof.
  intros Hb Hdisp.
  assert (Hat : entry_at name (start (Some d)) = Some (File b)) by exact Hb.
  rewrite (optimize_jpeg_run name b _ Hat).
  unfold report. rewrite Hb, Hdisp.
  destruct (reencode b) as [b' | e [b' |]]; try reflexivity.
  exists b'. split; [| reflexivity].
  apply entry_at_store_eq. reflexivity.
Qed.

End FileByFile.

Lemma total_perm (f : string -> Z) (l l' : list string) :
  l ≡ₚ l' -> total f l = total f l'.
Proof.
  intros Hperm. induction Hperm as [| x l l' _ IH | x y l | l l' l'' _ IH1 _ IH2].
  - reflexivity.
  - rewrite !total_cons, IH. reflexivity.
  - rewrite !total_cons. lia.
  - congruence.
Qed.

Section RunFacts.
Context `{Pillow}.

Lemma main_fs_some (IMG_DIR : string) (listing : list string)
    (d : gmap string entry) :
  exists d', fs (fst (main IMG_DIR listing (start (Some d)))) = Some d'.
Proof.
  rewrite main_on_directory, summary_fs, per_file_loop_run. cbn [fst].
  pose proof (loop_isdir listing
                (mkState (fs (start (Some d)))
                   (stdout (start (Some d)) ++ [banner IMG_DIR]) 0 0)) as Hdir.
  unfold isdir in Hdir. cbn [fs start] in Hdir.
  destruct (fs (steps listing _)) as [d' |]; [eauto | discriminate].
Qed.

Lemma main_totals (IMG_DIR : string) (listing : list string)
    (d : gmap string entry) :
  NoDup listing ->
  total_before (fst (main IMG_DIR listing (start (Some d))))
    = total (size_in d) listing
  /\ total_after (fst (main IMG_DIR listing (start (Some d))))
     = total (size_after_in d) listing.
Proof.
  intros Hnd. rewrite main_on_directory.
  destruct (summary_totals
              (fst (per_file_loop IMG_DIR listing (start (Some d)))))
    as [-> ->].
  apply per_file_loop_totals. exact Hnd.
Qed.

Lemma main_result (IMG_DIR : string) (listing : list string)
    (d : gmap string entry) :
  NoDup listing ->
  snd (main IMG_DIR listing (start (Some d)))
    = if total (size_after_in d) listing =? 0 then Ok tt
      else if total (size_in d) listing =? 0 then Raise ZeroDivisionError
      else Ok tt.
Proof.
  intros Hnd. rewrite main_on_directory.
  destruct (per_file_loop_totals IMG_DIR listing d Hnd) as [Hb Ha].
  unfold summary. rewrite Ha, Hb.
  destruct (total (size_after_in d) listing =? 0); [reflexivity |].
  destruct (total (size_in d) listing =? 0); reflexivity.
Qed.

(** A step over an entry the dispatcher does not send to the transform
    leaves the directory, the output and [total_after] alone. *)
Lemma step_idle (name : string) (st : state) :
  isfile name st && dispatched name = false ->
  fs (step name st) = fs st
  /\ stdout (step name st) = stdout st
  /\ total_after (step name st) = total_after st.
Proof.
  intros Hidle. destruct (isfile name st) eqn:Hfile.
  - cbn in Hidle. destruct (step_skip name st Hidle) as [Hfs Hout].
    split; [exact Hfs |]. split; [exact Hout |].
    unfold step, dispatched in *.
    destruct (entry_at name st) as [[b |] |]; try reflexivity.
    destruct (is_hero (lower name)); [reflexivity |].
    cbn in Hidle. rewrite Hidle. reflexivity.
  - rewrite step_not_file by exact Hfile. auto.
Qed.

Lemma steps_idle (names : list string) (st : state) :
  (forall n, n ∈ names -> isfile n st && dispatched n = false) ->
  fs (steps names st) = fs st
  /\ stdout (steps names st) = stdout st
  /\ total_after (steps names st) = total_after st.
Proof.
  revert st. induction names as [| name rest IH]; intros st Hidle.
  - auto.
  - rewrite steps_cons.
    destruct (step_idle name st (Hidle name (list_elem_of_here _ _)))
      as (Hfs & Hout & Hafter).
    destruct (IH (step name st)) as (IHfs & IHout & IHafter).
    + intros n Hn. unfold isfile.
      rewrite (entry_at_fs n (step name st) st Hfs).
      apply Hidle. apply list_elem_of_further. exact Hn.
    + split; [congruence |]. split; congruence.
Qed.

End RunFacts.

(** X17. With no name listed twice, a run does to each entry exactly
    what one call of [optimize_jpeg] on the directory as it was at the
    start does to it, if the entry is a listed regular file that the
    dispatcher sends to the transform; every other entry is left as it
    was. *)
Theorem run_rewrites_each_listed_jpeg_once `{Pillow}
    (IMG_DIR : string) (listing : list string)
    (d : gmap string entry) (k : string) :
  NoDup listing ->
  entry_at k (fst (main IMG_DIR listing (start (Some d))))
    = if bool_decide (k ∈ listing) && isfile k (start (Some d)) && dispatched k
      then entry_at k (fst (optimize_jpeg k (start (Some d))))
      else d !! k.
Proof. apply main_entry. Qed.

Lemma run_rewrites_each_listed_jpeg_once_witness :
  entry_at "photo1.JPG"
    (fst (@main Sample.codec "img" Sample.listing (start (Some Sample.img_dir))))
    = if bool_decide ("photo1.JPG"%string ∈ Sample.listing)
         && isfile "photo1.JPG" (start (Some Sample.img_dir))
         && dispatched "photo1.JPG"
      then entry_at "photo1.JPG"
             (fst (@optimize_jpeg Sample.codec "photo1.JPG"
                     (start (Some Sample.img_dir))))
      else Sample.img_dir !! "photo1.JPG"%string.
Proof.
  apply (@run_rewrites_each_listed_jpeg_once Sample.codec).
  exact sample_listing_nodup.
Defined.

(** X18. A listed JPEG that [optimize_jpeg] transforms is replaced by
    the bytes that call writes, and the run prints its per-file line
    with the sizes before and after in KiB and the reduction computed
    from those two sizes (the literal 0 for a file that was empty). *)
Theorem transformed_file_replaced_and_reported `{Pillow}
    (IMG_DIR : string) (listing : list string) (d : gmap string entry)
    (name : string) (b b' : bytes) (alone : state) :
  NoDup listing -> name ∈ listing ->
  d !! name = Some (File b) -> dispatched name = true ->
  optimize_jpeg name (start (Some d)) = (alone, Ok name) ->
  entry_at name alone = Some (File b') ->
  entry_at name (fst (main IMG_DIR listing (start (Some d)))) = Some (File b')
  /\ FileLine name (Z.of_nat (List.length b) / 1024)
       (Z.of_nat (List.length b') / 1024)
       (if Z.of_nat (List.length b) =? 0 then Flat
        else Reduction (Z.of_nat (List.length b')) (Z.of_nat (List.length b)))
     ∈ stdout (fst (main IMG_DIR listing (start (Some d)))).
Proof.
  intros Hnd Hin Hb Hdisp Hrun Hb'. split.
  - rewrite (main_entry IMG_DIR listing d name Hnd).
    rewrite bool_decide_eq_true_2 by exact Hin.
    unfold isfile at 1. unfold entry_at at 1. cbn [start fs mbind option_bind].
    rewrite Hb, Hdisp, Hrun. exact Hb'.
  - destruct (main_stdout_report IMG_DIR listing d Hnd) as (tail & -> & _).
    pose proof (report_of_run d name b Hb Hdisp) as Hreport.
    rewrite Hrun in Hreport. destruct Hreport as (b2 & Hb2 & Hreport).
    assert (b2 = b') by congruence. subst b2.
    apply list_elem_of_further, elem_of_app. left.
    apply list_elem_of_omap. exists name. split; assumption.
Qed.

Lemma transformed_file_replaced_and_reported_witness :
  entry_at "photo1.JPG"
    (fst (@main Sample.codec "img" Sample.listing (start (Some Sample.img_dir))))
    = Some (File [x09; x04])
  /\ FileLine "photo1.JPG" (Z.of_nat (List.length Sample.photo1) / 1024)
       (Z.of_nat (List.length [x09; x04]) / 1024)
       (if Z.of_nat (List.length Sample.photo1) =? 0 then Flat
        else Reduction (Z.of_nat (List.length [x09; x04]))
                       (Z.of_nat (List.length Sample.photo1)))
     ∈ stdout (fst (@main Sample.codec "img" Sample.listing
                      (start (Some Sample.img_dir)))).
Proof.
  apply (@transformed_file_replaced_and_reported Sample.codec "img"
           Sample.listing Sample.img_dir "photo1.JPG" Sample.photo1
           [x09; x04]
           (store "photo1.JPG" [x09; x04] (start (Some Sample.img_dir)))).
  - exact sample_listing_nodup.
  - apply list_elem_of_here.
  - reflexivity.
  - reflexivity.
  - reflexivity.
  - reflexivity.
Defined.

(** X19. A listed JPEG on which [optimize_jpeg] raises is reported by
    a skip line that carries the exception, the file is left as that
    one call left it, and the run goes on. *)
Theorem failed_file_reported_as_skipped `{Pillow}
    (IMG_DIR : string) (listing : list string) (d : gmap string entry)
    (name : string) (b : bytes) (alone : state) (e : exn) :
  NoDup listing -> name ∈ listing ->
  d !! name = Some (File b) -> dispatched name = true ->
  optimize_jpeg name (start (Some d)) = (alone, Raise e) ->
  entry_at name (fst (main IMG_DIR listing (start (Some d))))
    = entry_at name alone
  /\ SkipLine name e ∈ stdout (fst (main IMG_DIR listing (start (Some d)))).
Proof.
  intros Hnd Hin Hb Hdisp Hrun. split.
  - rewrite (main_entry IMG_DIR listing d name Hnd).
    rewrite bool_decide_eq_true_2 by exact Hin.
    unfold isfile at 1. unfold entry_at at 1. cbn [start fs mbind option_bind].
    rewrite Hb, Hdisp, Hrun. reflexivity.
  - destruct (main_stdout_report IMG_DIR listing d Hnd) as (tail & -> & _).
    pose proof (report_of_run d name b Hb Hdisp) as Hreport.
    rewrite Hrun in Hreport.
    apply list_elem_of_further, elem_of_app. left.
    apply list_elem_of_omap. exists name. split; assumption.
Qed.

Lemma failed_file_reported_as_skipped_witness :
  entry_at "broken.jpg"
    (fst (@main Sample.codec "img" Sample.listing (start (Some Sample.img_dir))))
    = entry_at "broken.jpg" (start (Some Sample.img_dir))
  /\ SkipLine "broken.jpg" (ImageError "cannot identify image file")
     ∈ stdout (fst (@main Sample.codec "img" Sample.listing
                      (start (Some Sample.img_dir)))).
Proof.
  apply (@failed_file_reported_as_skipped Sample.codec "img"
           Sample.listing Sample.img_dir "broken.jpg" Sample.broken).
  - exact sample_listing_nodup.
  - do 3 apply list_elem_of_further. apply list_elem_of_here.
  - reflexivity.
  - reflexivity.
  - reflexivity.
Defined.

(** X20. With no name listed twice, [total_after] at the end of a run
    is the sum of the sizes the successfully transformed files have
    after their transform, and [total_before] is the sum of the sizes
    all listed regular files had at the start. *)
Theorem totals_are_sums_over_the_listing `{Pillow}
    (IMG_DIR : string) (listing : list string) (d : gmap string entry) :
  NoDup listing ->
  total_after (fst (main IMG_DIR listing (start (Some d))))
    = total (size_after_in d) listing
  /\ total_before (fst (main IMG_DIR listing (start (Some d))))
     = total (size_in d) listing.
Proof.
  intros Hnd. destruct (main_totals IMG_DIR listing d Hnd). auto.
Qed.

Lemma totals_are_sums_over_the_listing_witness :
  total_after
    (fst (@main Sample.codec "img" Sample.listing (start (Some Sample.img_dir))))
    = total (@size_after_in Sample.codec Sample.img_dir) Sample.listing
  /\ total_before
       (fst (@main Sample.codec "img" Sample.listing
               (start (Some Sample.img_dir))))
     = total (size_in Sample.img_dir) Sample.listing.
Proof.
  apply (@totals_are_sums_over_the_listing Sample.codec).
  exact sample_listing_nodup.
Defined.

(** X21. The order in which the directory is listed does not matter:
    two listings of the same names give the same directory, the same
    totals and the same result, and the same lines up to their order. *)
Theorem listing_order_is_immaterial `{Pillow}
    (IMG_DIR : string) (listing listing' : list string)
    (d : gmap string entry) :
  NoDup listing -> listing ≡ₚ listing' ->
  let one := main IMG_DIR listing (start (Some d)) in
  let other := main IMG_DIR listing' (start (Some d)) in
  fs (fst one) = fs (fst other)
  /\ total_before (fst one) = total_before (fst other)
  /\ total_after (fst one) = total_after (fst other)
  /\ snd one = snd other
  /\ stdout (fst one) ≡ₚ stdout (fst other).
Proof.
  intros Hnd Hperm one other. subst one other.
  assert (Hnd' : NoDup listing') by (rewrite <- Hperm; exact Hnd).
  pose proof (total_perm (size_in d) listing listing' Hperm) as Hb.
  pose proof (total_perm (size_after_in d) listing listing' Hperm) as Ha.
  destruct (main_totals IMG_DIR listing d Hnd) as [Hb1 Ha1].
  destruct (main_totals IMG_DIR listing' d Hnd') as [Hb2 Ha2].
  split; [| split; [congruence | split; [congruence | split]]].
  - destruct (main_fs_some IMG_DIR listing d) as (d1 & Hd1).
    destruct (main_fs_some IMG_DIR listing' d) as (d2 & Hd2).
    rewrite Hd1, Hd2. f_equal. apply map_eq. intros k.
    pose proof (main_entry IMG_DIR listing d k Hnd) as E1.
    pose proof (main_entry IMG_DIR listing' d k Hnd') as E2.
    unfold entry_at at 1 in E1. unfold entry_at at 1 in E2.
    rewrite Hd1 in E1. rewrite Hd2 in E2. cbn in E1, E2.
    rewrite E1, E2.
    rewrite (bool_decide_ext (k ∈ listing) (k ∈ listing'))
      by (rewrite Hperm; reflexivity).
    reflexivity.
  - rewrite (main_result IMG_DIR listing d Hnd),
            (main_result IMG_DIR listing' d Hnd'), Ha, Hb.
    reflexivity.
  - destruct (main_stdout_report IMG_DIR listing d Hnd) as (t1 & -> & _ & ->).
    destruct (main_stdout_report IMG_DIR listing' d Hnd') as (t2 & -> & _ & ->).
    rewrite Ha, Hb, Hperm. reflexivity.
Qed.

Lemma listing_order_is_immaterial_witness :
  let one := @main Sample.codec "img" Sample.listing
               (start (Some Sample.img_dir)) in
  let other := @main Sample.codec "img" (rev Sample.listing)
                 (start (Some Sample.img_dir)) in
  fs (fst one) = fs (fst other)
  /\ total_before (fst one) = total_before (fst other)
  /\ total_after (fst one) = total_after (fst other)
  /\ snd one = snd other
  /\ stdout (fst one) ≡ₚ stdout (fst other).
Proof.
  apply (@listing_order_is_immaterial Sample.codec).
  - exact sample_listing_nodup.
  - apply Permutation_rev.
Defined.

(** X22. When no listed entry is a regular file that the dispatcher
    sends to the transform (an empty directory, only the hero image,
    only other extensions), the run leaves the directory untouched,
    prints the banner and nothing else, and returns normally. *)
Theorem nothing_to_transform_changes_nothing `{Pillow}
    (IMG_DIR : string) (listing : list string) (d : gmap string entry) :
  (forall n, n ∈ listing ->
             isfile n (start (Some d)) && dispatched n = false) ->
  fs (fst (main IMG_DIR listing (start (Some d)))) = Some d
  /\ stdout (fst (main IMG_DIR listing (start (Some d)))) = [banner IMG_DIR]
  /\ total_after (fst (main IMG_DIR listing (start (Some d)))) = 0
  /\ snd (main IMG_DIR listing (start (Some d))) = Ok tt.
Proof.
  intros Hidle. rewrite main_on_directory, per_file_loop_run. cbn [fst].
  destruct (steps_idle listing
              (mkState (fs (start (Some d)))
                 (stdout (start (Some d)) ++ [banner IMG_DIR]) 0 0))
    as (Hfs & Hout & Hafter).
  { intros n Hn. apply (Hidle n Hn). }
  rewrite (summary_silent _ Hafter). cbn [fst snd].
  rewrite Hfs, Hout, Hafter. auto.
Qed.

Lemma nothing_to_transform_changes_nothing_witness :
  fs (fst (@main Sample.codec "img" ["hero-bread.png"; "raw"; "notes.txt"]%string
             (start (Some Sample.img_dir)))) = Some Sample.img_dir
  /\ stdout (fst (@main Sample.codec "img"
                    ["hero-bread.png"; "raw"; "notes.txt"]%string
                    (start (Some Sample.img_dir)))) = [banner "img"]
  /\ total_after (fst (@main Sample.codec "img"
                         ["hero-bread.png"; "raw"; "notes.txt"]%string
                         (start (Some Sample.img_dir)))) = 0
  /\ snd (@main Sample.codec "img" ["hero-bread.png"; "raw"; "notes.txt"]%string
            (start (Some Sample.img_dir))) = Ok tt.
Proof.
  apply (@nothing_to_transform_changes_nothing Sample.codec).
  intros n Hn.
  repeat (apply elem_of_cons in Hn as [-> | Hn]);
    [reflexivity | reflexivity | reflexivity | inversion Hn].
Defined.

(** ** What a run never uses *)

(** X25. [main] never saves a PNG: replace Pillow's PNG encoder by any
    other and every run does exactly the same.  The hero transform,
    which is the one place that saves a PNG, is not on any path of
    [main]. *)
Theorem main_never_saves_png (P : Pillow) (encoder : @image P -> saved)
    (IMG_DIR : string) (listing : list string) (st : state) :
  @main (with_png_encoder P encoder) IMG_DIR listing st
    = @main P IMG_DIR listing st.
Proof. reflexivity. Qed.

(** ** Running the transform again *)

(** X26. After [optimize_jpeg] has returned, a second call on the same
    file resizes nothing: the image it opens and converts already fits
    the gallery size, so [resize_to_max] hands it back as it is. *)
Theorem optimize_jpeg_again_resizes_nothing `{Pillow}
    (path p : string) (st st' : state) (img rgb : image) :
  resize_exact -> convert_exact -> reopen_exact ->
  optimize_jpeg path st = (st', Ok p) ->
  image_open path st' = (st', Ok img) ->
  img_convert img "RGB" = Ok rgb ->
  resize_to_max rgb GALLERY_MAX = Ok rgb.
Proof.
  intros Hresize Hconvert Hreopen Hrun Hopen Hconv.
  destruct (optimize_jpeg_reaches_save path st)
    as [(e0 & Hfail) | (rgb0 & small & Hsmall & Hsave)].
  - rewrite Hfail in Hrun. discriminate.
  - assert (Hdir : isdir st = true).
    { unfold optimize_jpeg, bind, image_open in Hrun.
      destruct (entry_at path st) as [[b |] |] eqn:Hb; try discriminate.
      eapply entry_at_isdir. exact Hb. }
    rewrite Hsave in Hrun.
    destruct (save_then_ret_cases small path (JPEG JPEG_QUALITY) st)
      as [(b & Hs & Hr) | [(e1 & b & _ & Hr) | (e1 & _ & Hr)]];
      rewrite Hr in Hrun; try discriminate.
    injection Hrun as <- <-.
    rewrite (image_open_file path b (store path b st)
               (entry_at_store_eq path b st Hdir)) in Hopen.
    injection Hopen as Hopen.
    destruct (resize_to_max_bounded rgb0 small GALLERY_MAX Hresize
                ltac:(unfold GALLERY_MAX; lia) Hsmall) as [Hw Hh].
    destruct (Hconvert img "RGB"%string rgb Hconv) as [_ Hsize].
    rewrite (Hreopen small (JPEG JPEG_QUALITY) b img Hs Hopen) in Hsize.
    destruct (img_size small) as [w h] eqn:Hwh. cbn [fst snd] in Hw, Hh.
    apply (resize_to_max_keep rgb GALLERY_MAX w h Hsize Hw Hh).
Qed.

Lemma thumbs_resize_exact : @resize_exact Thumbs.codec.
Proof.
  intros i [w h] i'. cbn. unfold Thumbs.thumbs_resize. cbn [fst snd].
  destruct (Z.leb_spec 1 w); [| discriminate].
  destruct (Z.leb_spec w 255); [| discriminate].
  destruct (Z.leb_spec 1 h); [| discriminate].
  destruct (Z.leb_spec h 255); [| discriminate].
  cbn. intros E. injection E as <-.
  unfold Thumbs.thumbs_size, Sample.byte_val, Sample.val_byte. cbn [fst snd].
  assert (Hbyte : forall z, 1 <= z <= 255 ->
            Z.of_N (Byte.to_N match Byte.of_N (Z.to_N z) with
                               | Some b => b | None => x00 end) = z).
  { intros z Hz.
    destruct (Byte.of_N (Z.to_N z)) as [b |] eqn:Hb.
    - apply Byte.to_of_N in Hb. rewrite Hb. lia.
    - apply Byte.of_N_None_iff in Hb. lia. }
  rewrite !Hbyte by lia. reflexivity.
Qed.

Lemma thumbs_convert_exact : @convert_exact Thumbs.codec.
Proof.
  intros i m i'. cbn. intros E. injection E as <-. split; reflexivity.
Qed.

Lemma thumbs_reopen_exact : @reopen_exact Thumbs.codec.
Proof.
  intros [[w h] m] f b i'. cbn. intros E. injection E as <-.
  cbn. intros E. injection E as <-. reflexivity.
Qed.

Lemma optimize_jpeg_again_resizes_nothing_witness :
  @resize_to_max Thumbs.codec (xc8, x64, "RGB"%string) GALLERY_MAX
    = Ok (xc8, x64, "RGB"%string).
Proof.
  apply (@optimize_jpeg_again_resizes_nothing Thumbs.codec
           "thumb.jpg" "thumb.jpg" (start (Some Thumbs.thumb_dir))
           (store "thumb.jpg" Thumbs.thumb (start (Some Thumbs.thumb_dir)))
           (xc8, x64, "RGB"%string) (xc8, x64, "RGB"%string)).
  - exact thumbs_resize_exact.
  - exact thumbs_convert_exact.
  - exact thumbs_reopen_exact.
  - reflexivity.
  - reflexivity.
  - reflexivity.
Defined.

(** ** Everything a run prints *)

(** X27. With no name listed twice, the output of a run over an
    existing directory is the banner, then for each listed name in
    order the line [report] gives for it in the directory the run
    started from, then the total line if [total_after] is nonzero (and
    [total_before] is, too) and nothing otherwise. *)
Theorem output_of_a_run `{Pillow}
    (IMG_DIR : string) (listing : list string) (d : gmap string entry) :
  NoDup listing ->
  stdout (fst (main IMG_DIR listing (start (Some d))))
    = banner IMG_DIR :: omap (report d) listing
      ++ (if total (size_after_in d) listing =? 0 then []
          else if total (size_in d) listing =? 0 then []
          else [TotalLine (total (size_in d) listing / 1024)
                  (total (size_after_in d) listing / 1024)
                  (Reduction (total (size_after_in d) listing)
                             (total (size_in d) listing))]).
Proof.
  intros Hnd.
  destruct (main_stdout_report IMG_DIR listing d Hnd) as (tail & -> & _ & ->).
  reflexivity.
Qed.

Lemma output_of_a_run_witness :
  stdout (fst (@main Sample.codec "img" Sample.listing
                 (start (Some Sample.img_dir))))
    = banner "img" :: omap (@report Sample.codec Sample.img_dir) Sample.listing
      ++ (if total (@size_after_in Sample.codec Sample.img_dir) Sample.listing
             =? 0 then []
          else if total (size_in Sample.img_dir) Sample.listing =? 0 then []
          else [TotalLine (total (size_in Sample.img_dir) Sample.listing / 1024)
                  (total (@size_after_in Sample.codec Sample.img_dir)
                     Sample.listing / 1024)
                  (Reduction
                     (total (@size_after_in Sample.codec Sample.img_dir)
                        Sample.listing)
                     (total (size_in Sample.img_dir) Sample.listing))]).
Proof.
  apply (@output_of_a_run Sample.codec). exact sample_listing_nodup.
Defined.
